(** * Class scheduler on FoundationDB: a shallow embedding of
    [cmd/class_scheduler/main.go] and the properties of its operations.

    The program keeps two kinds of records in an ordered key-value store,
    under the prefix of the [scheduling] directory:
      - [("class", name) = seats], written by the initialisation block,
      - [("attends", student, class) = empty], written by [signup] and
        cleared by [drop].
    The store, its tuple layer and its subspaces belong to the FoundationDB
    bindings; they are embedded here as far as the program uses them. *)

From Stdlib Require Import ZArith Lia.
From Stdlib Require Import Strings.String Strings.Byte Strings.Ascii.
From Stdlib Require Import Numbers.DecimalString.
From stdpp Require Import gmap list sorting.

Local Open Scope Z_scope.
Local Open Scope string_scope.
Local Open Scope list_scope.
Local Open Scope stdpp_scope.

(* ================================================================== *)
(** * Bytes and keys                                                  *)
(* ================================================================== *)

(** A Go [[]byte]; a Go [string] is a Rocq [string], converted with
[list_byte_of_string] where the program writes [[]byte(s)]. *)
Abbreviation bytes := (list byte).

#[global] Instance byte_eq_decision : EqDecision byte := Byte.byte_eq_dec.

#[global] Instance byte_countable : Countable byte :=
  inj_countable Byte.to_N Byte.of_N Byte.of_to_N.

Module Bytes.

(** [bytes.Compare]: unsigned, byte by byte, a proper prefix first. This
is the order of the store's keys and of Go's [<] on strings. *)
Fixpoint compare (a b : bytes) : comparison :=
  match a, b with
  | [], [] => Eq
  | [], _ :: _ => Lt
  | _ :: _, [] => Gt
  | x :: a', y :: b' =>
      match N.compare (Byte.to_N x) (Byte.to_N y) with
      | Eq => compare a' b'
      | c => c
      end
  end.

Definition ltb (a b : bytes) : bool :=
  match compare a b with Lt => true | _ => false end.

Definition leb (a b : bytes) : bool :=
  match compare a b with Gt => false | _ => true end.

(** [bytes.HasPrefix]. *)
Fixpoint hasPrefix (s p : bytes) {struct p} : bool :=
  match p, s with
  | [], _ => true
  | _ :: _, [] => false
  | y :: p', x :: s' => Byte.eqb x y && hasPrefix s' p'
  end.

End Bytes.

(** Go's [a < b] on strings. *)
Definition string_lt (a b : string) : Prop :=
  Bytes.ltb (list_byte_of_string a) (list_byte_of_string b) = true.

(* ================================================================== *)
(** * The tuple layer ([fdb/tuple])                                    *)
(* ================================================================== *)

Module tuple.

(** The tuple layer is the bindings' and not among the sources; the spec
(4.1, Key Codec) asks of it an encoding whose byte order is the order of
the element sequences and a decoding that inverts it and fails on
anything else. The definitions below are FoundationDB's encoding of
string elements, for which both are proved further down
([compare_encodeString], [Unpack_Pack]).

A tuple of this program: every element it packs is a Go string
([tuple.Tuple{class}], [tuple.Tuple{studentID, class}], and the names
given to [Sub]). Only the string element is embedded; a key carrying
another type code does not decode. *)
Definition Tuple := list string.

(** Modelled from the spec: the codec of 4.1, part one. Inside an encoded
string a NUL byte is written [00 FF]. *)
Fixpoint escape (s : bytes) : bytes :=
  match s with
  | [] => []
  | b :: r => if Byte.eqb b x00 then x00 :: xff :: escape r
              else b :: escape r
  end.

(** Modelled from the spec: the codec of 4.1, part two. A string element
is its type code [02], the escaped bytes, and the terminator [00]. *)
Definition encodeString (s : string) : bytes :=
  x02 :: escape (list_byte_of_string s) ++ [x00].

(** Modelled from the spec: [encodeTuple] of section 6, the bindings'
[Tuple.Pack]: the elements' encodings, one after the other. *)
Fixpoint Pack (t : Tuple) : bytes :=
  match t with
  | [] => []
  | s :: r => encodeString s ++ Pack r
  end.

(** Modelled from the spec: [decodeTuple] of section 6, the bindings'
[tuple.Unpack], as one scan: [cur] is [None] between elements and
[Some acc] inside a string whose bytes so far are [acc] (reversed).
[None] as a result is the decoding error. *)
Fixpoint decode (cur : option bytes) (b : bytes) : option Tuple :=
  match cur, b with
  | None, [] => Some []
  | None, c :: r => if Byte.eqb c x02 then decode (Some []) r else None
  | Some _, [] => None
  | Some acc, c :: r =>
      if Byte.eqb c x00 then
        match r with
        | c' :: r' =>
            if Byte.eqb c' xff then decode (Some (x00 :: acc)) r'
            else option_map (cons (string_of_list_byte (rev acc)))
                            (decode None r)
        | [] => Some [string_of_list_byte (rev acc)]
        end
      else decode (Some (c :: acc)) r
  end.

Definition Unpack (b : bytes) : option Tuple := decode None b.

End tuple.

(* ================================================================== *)
(** * Subspaces ([fdb/subspace])                                       *)
(* ================================================================== *)

Module subspace.

(** Modelled from the spec: the Namespace Manager of 4.1, which prepends a
fixed prefix per region; in the bindings, [subspace.Subspace], which is
not among the sources. A subspace is its raw prefix. *)
Record Subspace := FromBytes { rawPrefix : bytes }.

(** Modelled from the spec: the prefix of a region (4.1). [s.Sub(name)] is
the subspace whose prefix is [s]'s followed by the packed name. *)
Definition Sub (s : Subspace) (name : string) : Subspace :=
  FromBytes (rawPrefix s ++ tuple.Pack [name]).

(** Modelled from the spec: a key of a region (4.1). [s.Pack(t)] is the
prefix followed by the packed tuple. *)
Definition Pack (s : Subspace) (t : tuple.Tuple) : bytes :=
  rawPrefix s ++ tuple.Pack t.

(** Modelled from the spec: decoding a key of a region (4.1). [s.Unpack(k)]
is an error ([None]) when [k] is not under the prefix or what follows
the prefix is not a tuple. *)
Definition Unpack (s : Subspace) (k : bytes) : option tuple.Tuple :=
  if Bytes.hasPrefix k (rawPrefix s)
  then tuple.Unpack (drop (length (rawPrefix s)) k)
  else None.

(** Modelled from the spec: the range of a region (4.1).
[s.FDBRangeKeys()] is the begin (inclusive) and the end (exclusive) of the
range that holds the packed tuples of [s]. *)
Definition FDBRangeKeys (s : Subspace) : bytes * bytes :=
  (rawPrefix s ++ [x00], rawPrefix s ++ [xff]).

End subspace.

(* ================================================================== *)
(** * The store and a transaction's operations on it ([fdb])           *)
(* ================================================================== *)

Module fdb.

(** The store is the bindings' and not among the sources; its
operations follow the store contract of the spec (section 6) and the
Transaction Runner of 4.2, under the names the program calls them by.

The database contents: a finite map from keys to values. A transaction
works on its own view of it, which a successful commit makes the new
contents. *)
Abbreviation Store := (gmap bytes bytes).

(** [begin <= k < end]. *)
Definition inRange (r : bytes * bytes) (k : bytes) : bool :=
  Bytes.leb r.1 k && Bytes.ltb k r.2.

(** Modelled from the spec: [set(handle, key, value)] of section 6, the
program's [tr.Set(key, value)] ([Set] alone is a reserved word here). *)
Definition Set_ (key value : bytes) (tr : Store) : Store := <[key := value]> tr.

(** Modelled from the spec: [clear(handle, key)] of section 6, the
program's [tr.Clear(key)]. *)
Definition Clear (key : bytes) (tr : Store) : Store := delete key tr.

(** Modelled from the spec: [clearRange(handle, beginKey, endKey)] of
section 6, the program's [tr.ClearRange(r)]: removes every key of the
range. *)
Definition ClearRange (r : bytes * bytes) (tr : Store) : Store :=
  filter (fun kv => inRange r kv.1 = false) tr.

(** The order in which a range read delivers its key-value pairs. *)
Definition kvLe (x y : bytes * bytes) : Prop := Bytes.leb x.1 y.1 = true.

#[export] Instance kvLe_dec x y : Decision (kvLe x y).
Proof. unfold kvLe. apply _. Defined.

(** Modelled from the spec: [getRange(handle, beginKey, endKey)] of section
6, an ordered sequence of pairs; the program's
[tr.GetRange(r, fdb.RangeOptions{})] run to its end: no limit, not
reversed, so every pair of the range, in ascending key order. *)
Definition GetRange (r : bytes * bytes) (tr : Store) : list (bytes * bytes) :=
  merge_sort kvLe (filter (fun kv => inRange r kv.1 = true) (map_to_list tr)).

(** A Go [error] value: [nil] is [None]; the store's errors are
[fdb.Error{Code}], every other error is a plain one. *)
Inductive GoError :=
| FdbError (code : Z)
| PlainError (msg : string).

Definition error := option GoError.

(** The type assertion [fe, ok := err.(fdb.Error)]: [Some code] when [ok]. *)
Definition asFdbError (err : error) : option Z :=
  match err with
  | Some (FdbError code) => Some code
  | _ => None
  end.

(** What the store answers during one attempt of a transaction: the
result of [tr.Commit().Get()] and, should it be consulted, the result of
[tr.OnError(e).Get()]. There [None] is [nil]: the error was retryable,
the transaction has been reset, the backoff waited, and the caller may
try again. An error is returned for a terminal error, and for any error
once the retry limit or the timeout set at main.go, lines 109-110, is
used up. *)
Record Attempt := { commitError : option Z; onErrorError : option Z }.

Definition Commits : Attempt := {| commitError := None; onErrorError := None |}.
Definition Aborts (code : Z) (reply : option Z) : Attempt :=
  {| commitError := Some code; onErrorError := reply |}.

(** A database handle as one call sees it: the result of
[db.CreateTransaction()] and the store's answers to the attempts that
follow. *)
Record Database := { createTransactionError : option Z; attempts : list Attempt }.

(** What a call comes to: it returns its results and leaves the store in
some state, or it panics, or it is still retrying when the scripted
answers of the store are used up. *)
Inductive Run (A : Type) :=
| Returns (ret : A) (err : error) (st : Store)
| Panics
| Pending.
Arguments Returns {A} ret err st.
Arguments Panics {A}.
Arguments Pending {A}.

(** Modelled from the spec: one attempt of the Transaction Runner in
top-level mode (4.2): invoke the work on the transaction, then commit;
in the bindings, the closure that [Database.Transact] retries, which
commits if the function reported no error. An attempt that does not
commit leaves the database as it was. *)
Definition wrapped {A} (f : Store -> Run A) (a : Attempt) (st : Store) : Run A :=
  match f st with
  | Returns ret None view =>
      match commitError a with
      | None => Returns ret None view
      | Some code => Returns ret (Some (FdbError code)) st
      end
  | Returns ret (Some e) _ => Returns ret (Some e) st
  | r => r
  end.

(** Modelled from the spec: the loop of the Transaction Runner in
top-level mode (4.2): success returns; a store error goes to [OnError],
whose [nil] means another pass from the beginning, and whose error is
returned at once; any other error returns. *)
Fixpoint retryable {A} (f : Store -> Run A) (script : list Attempt) (st : Store)
  : Run A :=
  match script with
  | [] => Pending
  | a :: rest =>
      match wrapped f a st with
      | Returns ret None st' => Returns ret None st'
      | Returns ret (Some e) st' =>
          let e' := match asFdbError (Some e) with
                    | Some _ => FdbError <$> onErrorError a
                    | None => Some e
                    end in
          match e' with
          | Some _ => Returns ret e' st'
          | None => retryable f rest st'
          end
      | r => r
      end
  end.

(** [fdb.Transactor]: a [Database], whose [Transact] creates a transaction
and retries it until it commits, or an open [Transaction], whose
[Transact] runs the function on itself and leaves retrying to the caller
(main.go, lines 48-55). For the latter the store argument is the
transaction's view. *)
Inductive Transactor :=
| OnDatabase (db : Database)
| OnTransaction.

(** Modelled from the spec: [run(work)] of the Transaction Runner (4.2) in
its two modes, top-level on a database and nested on an open
transaction; the bindings' [Transact]. *)
Definition Transact {A} `{Inhabited A} (t : Transactor) (f : Store -> Run A)
  (st : Store) : Run A :=
  match t with
  | OnDatabase db =>
      match createTransactionError db with
      | Some code => Returns inhabitant (Some (FdbError code)) st
      | None => retryable f (attempts db) st
      end
  | OnTransaction => f st
  end.

(** What a function given a [ReadTransaction] comes to: that interface
has the reads only, so there is no view to hand back. *)
Inductive Read (A : Type) :=
| ReadReturns (ret : A) (err : error)
| ReadPanics.
Arguments ReadReturns {A} ret err.
Arguments ReadPanics {A}.

(** Modelled from the spec: the runner for read-only work (section 5:
the same retry budget, a non-mutating transaction); the bindings'
[t.ReadTransact(f)]. *)
Definition ReadTransact {A} `{Inhabited A} (t : Transactor) (f : Store -> Read A)
  (st : Store) : Run A :=
  Transact t (fun view => match f view with
                          | ReadReturns ret err => Returns ret err view
                          | ReadPanics => Panics
                          end) st.

(** What the store's answers hold for a call that itself reports no
error: its transaction commits, or the call fails with a store error, or
the answers end while it is still retrying. *)
Inductive Fate :=
| Committed
| Failed (code : Z)
| Unsettled.

Fixpoint scriptFate (script : list Attempt) : Fate :=
  match script with
  | [] => Unsettled
  | a :: rest =>
      match commitError a, onErrorError a with
      | None, _ => Committed
      | Some _, Some code => Failed code
      | Some _, None => scriptFate rest
      end
  end.

Definition fate (t : Transactor) : Fate :=
  match t with
  | OnDatabase db =>
      match createTransactionError db with
      | Some code => Failed code
      | None => scriptFate (attempts db)
      end
  | OnTransaction => Committed
  end.

(** The outcome of a call whose function only writes and reports no
error, by the fate of its transactor: [st] is the store before the call,
[st'] what the function makes of it. *)
Definition outcome (t : Transactor) (st st' : Store) : Run unit :=
  match fate t with
  | Committed => Returns () None st'
  | Failed code => Returns () (Some (FdbError code)) st
  | Unsettled => Pending
  end.

End fdb.

(** [strconv.FormatInt(i, 10)]. *)
Definition FormatInt (i : Z) : string := NilZero.string_of_int (Z.to_int i).

(* ================================================================== *)
(** * The program                                                      *)
(* ================================================================== *)

Module scheduler.
Import subspace fdb.

(** The calls on the store that the hand-written retry loop makes, in the
order it makes them. *)
Inductive Call :=
| CallSet (key value : bytes)
| CallCommit
| CallOnError (code : Z).

Section WithDirectory.

(** [schedulingDir]: the directory opened under the path
[{"scheduling"}]; its prefix is the directory layer's choice. *)
Variable schedulingDir : Subspace.

Definition courseSS : Subspace := Sub schedulingDir "class".
Definition attendSS : Subspace := Sub schedulingDir "attends".

(** The value written for every class: [[]byte(strconv.FormatInt(n, 10))]. *)
Definition seats (n : Z) : bytes := list_byte_of_string (FormatInt n).

(** main.go, lines 58-98: signup without [Transact]. One pass of the
[for] loop per scripted attempt. [wrapped] sets the key and commits;
neither call panics, so its deferred [recover] has nothing to catch.
Next to the error, the result carries the log of the calls made on the
store. *)
Fixpoint signupLoop (key : bytes) (script : list Attempt) (st : Store)
  (log : list Call) : Run (list Call) :=
  match script with
  | [] => Pending
  | a :: rest =>
      (* wrapped() *)
      let view := Set_ key [] st in
      let err : error := FdbError <$> commitError a in
      let st1 := match err with None => view | Some _ => st end in
      let log1 := log ++ [CallSet key []; CallCommit] in
      (* if err != nil { return } *)
      match err with
      | Some _ => Returns log1 err st1
      | None =>
          (* fe, ok := err.(fdb.Error); if ok { err = tr.OnError(fe).Get() } *)
          let '(err2, log2) :=
            match asFdbError err with
            | Some fe => (FdbError <$> onErrorError a, log1 ++ [CallOnError fe])
            | None => (err, log1)
            end in
          (* if err != nil { return } *)
          match err2 with
          | Some _ => Returns log2 err2 st1
          | None => signupLoop key rest st1 log2
          end
      end
  end.

Definition signupWithoutTransact (db : Database) (studentID class : string)
  (st : Store) : Run (list Call) :=
  match createTransactionError db with
  | Some code => Returns [] (Some (FdbError code)) st
  | None => signupLoop (Pack attendSS [studentID; class]) (attempts db) st []
  end.

(** main.go, lines 132-141: the initialisation transaction, over the
class list [classes]. [initializeBody] is what its function does to the
transaction: clear the directory's range, then set one key per class. *)
Definition initializeBody (classes : list string) (tr : Store) : Store :=
  let tr := ClearRange (FDBRangeKeys schedulingDir) tr in
  foldl (fun tr c => Set_ (Pack courseSS [c]) (seats 100) tr) tr classes.

Definition initialize (db : Database) (classes : list string) (st : Store)
  : Run unit :=
  Transact (OnDatabase db)
    (fun tr => Returns () None (initializeBody classes tr)) st.

(** main.go, lines 153-161: the loop over the range iterator. *)
Fixpoint collect (kvs : list (bytes * bytes)) (classes : list string)
  : Read (list string) :=
  match kvs with
  | [] => ReadReturns classes None
  | kv :: rest =>
      match Unpack courseSS kv.1 with
      | None => ReadReturns [] (Some (PlainError "Unpack"))
      | Some t =>
          match t with
          | c :: _ => collect rest (classes ++ [c])
          | [] => ReadPanics
          end
      end
  end.

(** main.go, lines 149-167: availableClasses. *)
Definition availableClasses (t : Transactor) (st : Store) : Run (list string) :=
  match ReadTransact t
          (fun rtr => collect (GetRange (FDBRangeKeys courseSS) rtr) []) st with
  | Returns r None st' => Returns r None st'
  | Returns _ (Some e) st' => Returns [] (Some e) st'
  | r => r
  end.

(** main.go, lines 174-182: signup. *)
Definition signup (t : Transactor) (studentID class : string) (st : Store)
  : Run unit :=
  let SCKey := Pack attendSS [studentID; class] in
  Transact t (fun tr => Returns () None (Set_ SCKey [] tr)) st.

(** main.go, lines 187-195: drop. *)
Definition drop (t : Transactor) (studentID class : string) (st : Store)
  : Run unit :=
  let SCKey := Pack attendSS [studentID; class] in
  Transact t (fun tr => Returns () None (Clear SCKey tr)) st.

(** The keys of the two kinds of record:
[courseSS.Pack(tuple.Tuple{class})] and
[attendSS.Pack(tuple.Tuple{studentID, class})]. *)
Definition classKey (class : string) : bytes := Pack courseSS [class].
Definition attendKey (studentID class : string) : bytes :=
  Pack attendSS [studentID; class].

(** Sequences of calls of [signup] and [drop], each through a transactor
of its own; the store is handed from one call to the next. *)
Inductive Op :=
| OpSignup (t : Transactor) (studentID class : string)
| OpDrop (t : Transactor) (studentID class : string).

Definition applyOp (op : Op) (st : Store) : Run unit :=
  match op with
  | OpSignup t studentID class => signup t studentID class st
  | OpDrop t studentID class => drop t studentID class st
  end.

Fixpoint run (ops : list Op) (st : Store) : option Store :=
  match ops with
  | [] => Some st
  | op :: rest =>
      match applyOp op st with
      | Returns _ _ st' => run rest st'
      | _ => None
      end
  end.

Definition opTransactor (op : Op) : Transactor :=
  match op with
  | OpSignup t _ _ => t
  | OpDrop t _ _ => t
  end.

End WithDirectory.

End scheduler.

(** Concrete data for the examples: a directory prefix as the directory
layer hands them out, a database whose first attempt commits, and one
whose first commit meets a conflict ([not_committed], 1020) that
[OnError] declares retryable. *)
Module scenario.
Import subspace fdb.

Definition dir : Subspace := FromBytes [x15; x01].

Definition steady : Database :=
  {| createTransactionError := None; attempts := [Commits] |}.

Definition contended : Database :=
  {| createTransactionError := None;
     attempts := [Aborts 1020 None; Commits] |}.

(** Stores: class [a] alone, with 100 seats and with none left; student
[s1] enrolled in [a], with and without the class record. *)
Definition fresh : Store := {[ scheduler.classKey dir "a" := scheduler.seats 100 ]}.

Definition full : Store := {[ scheduler.classKey dir "a" := scheduler.seats 0 ]}.

Definition enrolled : Store :=
  <[ scheduler.attendKey dir "s1" "a" := [] ]>
    {[ scheduler.classKey dir "a" := scheduler.seats 99 ]}.

Definition orphan : Store := {[ scheduler.attendKey dir "s1" "a" := [] ]}.

End scenario.

(** The pair of student and class that a call of [signup] or [drop] is
about. *)
Definition opPair (op : scheduler.Op) : string * string :=
  match op with
  | scheduler.OpSignup _ studentID class => (studentID, class)
  | scheduler.OpDrop _ studentID class => (studentID, class)
  end.

(* ================================================================== *)
(** * The class list of [main] (class_scheduler/main.go, lines 116-129) *)
(* ================================================================== *)

Module catalog.

(** [fmt.Sprintf("%s %s %s", a, b, c)]. *)
Definition Sprintf3 (a b c : string) : string :=
  (a ++ " " ++ b ++ " " ++ c)%string.

(** [for i := range xs { ... xs[i] ... }]: one pass per element, with its
index, in order; [forRangeFrom] is the loop from index [i] on. *)
Fixpoint forRangeFrom {A St : Type} (i : nat) (xs : list A)
  (body : nat -> A -> St -> St) (s : St) : St :=
  match xs with
  | [] => s
  | x :: rest => forRangeFrom (S i) rest body (body i x s)
  end.

Definition forRange {A St : Type} (xs : list A)
  (body : nat -> A -> St -> St) (s : St) : St :=
  forRangeFrom 0 xs body s.

(** [classes[idx] = v] on a slice: an index out of range panics, which is
[None] here and stays [None]. *)
Definition assign (idx : nat) (v : string) (classes : option (list string))
  : option (list string) :=
  match classes with
  | Some cs =>
      if decide (idx < length cs)%nat then Some (<[idx := v]> cs) else None
  | None => None
  end.

(** main.go, lines 121-129: the slice made with one empty string per
combination, and the three nested loops that fill it by index. *)
Definition makeClasses (levels types times : list string)
  : option (list string) :=
  let classes :=
    replicate (length levels * length types * length times)%nat ""%string in
  forRange levels (fun i lv =>
    forRange types (fun j ty =>
      forRange times (fun k tm =>
        assign (i * length types * length times + j * length times + k)%nat
               (Sprintf3 lv ty tm))))
    (Some classes).

(** main.go, lines 116-119. *)
Definition levels : list string :=
  ["intro"; "for dummies"; "remedial"; "101"; "201"; "301"; "mastery"; "lab";
   "seminar"].

Definition types : list string :=
  ["chem"; "bio"; "cs"; "geometry"; "calc"; "alg"; "film"; "music"; "art";
   "dance"].

Definition times : list string :=
  ["2:00"; "3:00"; "4:00"; "5:00"; "6:00"; "7:00"; "8:00"; "9:00"; "10:00";
   "11:00"; "12:00"; "13:00"; "14:00"; "15:00"; "16:00"; "17:00"; "18:00";
   "19:00"].

(** Whether a string holds no space. *)
Fixpoint spaceFree (s : string) : bool :=
  match s with
  | EmptyString => true
  | String a r => negb (Ascii.eqb a " "%char) && spaceFree r
  end.

(** Every combination, levels outermost and times innermost. *)
Definition combinations (levels types times : list string) : list string :=
  lv ← levels; ty ← types; Sprintf3 lv ty <$> times.

End catalog.

(* ================================================================== *)
(** * hello_world/main.go                                              *)
(* ================================================================== *)

Module hello.
Import fdb.

(** Modelled from the spec: [get(handle, key)] of section 6, a value or
absent; the program's [tr.Get(key)]. *)
Definition Get (key : bytes) (tr : Store) : option bytes := tr !! key.

(** A Go [interface{}] as this program fills it: [nil], or a [[]byte]
(the nil slice is the empty one: both print as the empty string). *)
Inductive any :=
| anyNil
| anyBytes (v : bytes).

#[global] Instance any_inhabited : Inhabited any := populate anyNil.

(** [tr.Get(key).MustGet()]: the value, or a nil slice for a missing
key. *)
Definition MustGet (r : option bytes) : bytes := default [] r.

(** How the program ends: it prints a line; or [log.Fatalf] ends it with
a message for an error; or it panics; or it is still retrying when the
scripted answers of the store are used up. *)
Inductive Exit :=
| Printed (out : string)
| Fatal (format : string) (err : GoError)
| Panicked
| Running.

Definition newline : string := String "010"%char EmptyString.

(** [fdb.Key("hello")] and [[]byte("world")]. *)
Definition helloKey : bytes := list_byte_of_string "hello".
Definition worldValue : bytes := list_byte_of_string "world".

(** main.go, lines 10-43: [setDb] and [getDb] are the database as the
first and as the second call of [db.Transact] see it. *)
Definition main (setDb getDb : Database) (st : Store) : Exit * Store :=
  match Transact (OnDatabase setDb)
          (fun tr => Returns anyNil None (Set_ helloKey worldValue tr)) st with
  | Returns _ (Some err) st1 =>
      (Fatal "Unable to set FDB database value (%v)" err, st1)
  | Returns _ None st1 =>
      match Transact (OnDatabase getDb)
              (fun tr => Returns (anyBytes (MustGet (Get helloKey tr))) None tr)
              st1 with
      | Returns _ (Some err) st2 =>
          (Fatal "Unable to read FDB database value (%v)" err, st2)
      | Returns ret None st2 =>
          (* v := ret.([]byte) *)
          match ret with
          | anyBytes v =>
              (Printed ("hello, " ++ string_of_list_byte v ++ newline)%string,
               st2)
          | anyNil => (Panicked, st2)
          end
      | Panics => (Panicked, st1)
      | Pending => (Running, st1)
      end
  | Panics => (Panicked, st)
  | Pending => (Running, st)
  end.

End hello.

(* ================================================================== *)
(** * Facts about the byte order                                       *)
(* ================================================================== *)

Section BytesFacts.

Lemma to_N_inj (x y : byte) : Byte.to_N x = Byte.to_N y -> x = y.
Proof.
  intros E. assert (H : Some x = Some y); [|congruence].
  rewrite <- (Byte.of_to_N x), <- (Byte.of_to_N y). by rewrite E.
Qed.

Lemma byte_eqb_eq (x y : byte) : Byte.eqb x y = true <-> x = y.
Proof. split; [apply Byte.byte_dec_bl | apply Byte.byte_dec_lb]. Qed.

Lemma byte_eqb_refl (x : byte) : Byte.eqb x x = true.
Proof. by apply byte_eqb_eq. Qed.

Lemma byte_eqb_neq (x y : byte) : Byte.eqb x y = false <-> x <> y.
Proof.
  rewrite <- byte_eqb_eq. destruct (Byte.eqb x y); split; congruence.
Qed.

Lemma to_N_zero (x : byte) : Byte.to_N x = 0%N <-> x = x00.
Proof.
  split; [|by intros ->]. intros E. apply to_N_inj. by rewrite E.
Qed.

Lemma compare_refl (a : bytes) : Bytes.compare a a = Eq.
Proof. induction a as [|x a IH]; simpl; [done|]. by rewrite N.compare_refl. Qed.

Lemma compare_eq (a b : bytes) : Bytes.compare a b = Eq -> a = b.
Proof.
  revert b. induction a as [|x a IH]; intros [|y b]; simpl; try done.
  destruct (N.compare_spec (Byte.to_N x) (Byte.to_N y)) as [E| |]; try done.
  intros H. f_equal; [by apply to_N_inj | by apply IH].
Qed.

Lemma compare_antisym (a b : bytes) :
  Bytes.compare b a = CompOpp (Bytes.compare a b).
Proof.
  revert b. induction a as [|x a IH]; intros [|y b]; simpl; try done.
  rewrite (N.compare_antisym (Byte.to_N x) (Byte.to_N y)).
  destruct (Byte.to_N x ?= Byte.to_N y)%N; simpl; auto.
Qed.

Lemma compare_lt_trans (a b c : bytes) :
  Bytes.compare a b = Lt -> Bytes.compare b c = Lt -> Bytes.compare a c = Lt.
Proof.
  revert b c. induction a as [|x a IH]; intros [|y b] [|z c]; simpl; try done.
  destruct (N.compare_spec (Byte.to_N x) (Byte.to_N y)) as [E|L|G]; try done;
    destruct (N.compare_spec (Byte.to_N y) (Byte.to_N z)) as [E'|L'|G'];
    try done; intros H1 H2.
  - rewrite E, E', N.compare_refl. by eapply IH.
  - rewrite E. by apply N.compare_lt_iff in L' as ->.
  - rewrite <- E'. by apply N.compare_lt_iff in L as ->.
  - assert (Byte.to_N x < Byte.to_N z)%N as L2 by lia.
    by apply N.compare_lt_iff in L2 as ->.
Qed.

Lemma compare_app (p a b : bytes) :
  Bytes.compare (p ++ a) (p ++ b) = Bytes.compare a b.
Proof. induction p as [|x p IH]; simpl; [done|]. by rewrite N.compare_refl. Qed.

Lemma ltb_lt (a b : bytes) : Bytes.ltb a b = true <-> Bytes.compare a b = Lt.
Proof. unfold Bytes.ltb. destruct (Bytes.compare a b); split; congruence. Qed.

Lemma leb_le (a b : bytes) : Bytes.leb a b = true <-> Bytes.compare a b <> Gt.
Proof. unfold Bytes.leb. destruct (Bytes.compare a b); split; congruence. Qed.

Lemma leb_lt_or_eq (a b : bytes) :
  Bytes.leb a b = true <-> Bytes.compare a b = Lt \/ a = b.
Proof.
  rewrite leb_le. split.
  - destruct (Bytes.compare a b) eqn:E; [|by left|done].
    right. by apply compare_eq.
  - intros [->| ->]; [done|]. by rewrite compare_refl.
Qed.

Lemma ltb_irrefl (a : bytes) : Bytes.ltb a a = false.
Proof. unfold Bytes.ltb. by rewrite compare_refl. Qed.

Lemma ltb_trans (a b c : bytes) :
  Bytes.ltb a b = true -> Bytes.ltb b c = true -> Bytes.ltb a c = true.
Proof. rewrite !ltb_lt. apply compare_lt_trans. Qed.

Lemma leb_total (a b : bytes) : Bytes.leb a b = true \/ Bytes.leb b a = true.
Proof.
  unfold Bytes.leb. rewrite (compare_antisym a b).
  destruct (Bytes.compare a b); simpl; auto.
Qed.

Lemma leb_trans (a b c : bytes) :
  Bytes.leb a b = true -> Bytes.leb b c = true -> Bytes.leb a c = true.
Proof.
  rewrite !leb_lt_or_eq. intros [H1| ->] [H2| ->]; eauto using compare_lt_trans.
Qed.

Lemma hasPrefix_app (p r : bytes) : Bytes.hasPrefix (p ++ r) p = true.
Proof. induction p as [|x p IH]; simpl; [done|]. by rewrite byte_eqb_refl. Qed.

(** A key lies in the range of a prefix exactly when it extends the prefix
by at least one byte, the first of them below [FF]. *)
Lemma inRange_prefix (p k : bytes) :
  Bytes.leb (p ++ [x00]) k && Bytes.ltb k (p ++ [xff]) = true <->
  exists c r, k = p ++ c :: r /\ (Byte.to_N c < 255)%N.
Proof.
  rewrite andb_true_iff, leb_le, ltb_lt. revert k.
  induction p as [|y p IH]; intros [|x k]; simpl.
  - split; [intros [? _]; done | intros (c & r & ? & _); done].
  - split.
    + intros [_ H]. exists x, k. split; [done|].
      destruct (N.compare_spec (Byte.to_N x) 255) as [E|L|G]; try done.
      by destruct k.
    + intros (c & r & [= -> ->] & L).
      apply N.compare_lt_iff in L as L'. rewrite L'. split; [|done].
      destruct (Byte.to_N c); [by destruct r | done].
  - split; [intros [? _]; done | intros (c & r & ? & _); done].
  - rewrite (N.compare_antisym (Byte.to_N x) (Byte.to_N y)).
    destruct (N.compare_spec (Byte.to_N x) (Byte.to_N y)) as [E|L|G]; simpl.
    + apply to_N_inj in E as ->. rewrite IH. split.
      * intros (c & r & -> & L). by exists c, r.
      * intros (c & r & [= ->] & L). by exists c, r.
    + split; [intros [? _]; done|].
      intros (c & r & [= -> _] & _). lia.
    + split; [intros [_ ?]; done|].
      intros (c & r & [= -> _] & _). lia.
Qed.

End BytesFacts.

(* ================================================================== *)
(** * Facts about the tuple layer and the subspaces                    *)
(* ================================================================== *)

Section TupleFacts.

Lemma list_byte_of_string_inj (a b : string) :
  list_byte_of_string a = list_byte_of_string b -> a = b.
Proof.
  intros E. rewrite <- (string_of_list_byte_of_string a),
    <- (string_of_list_byte_of_string b). by rewrite E.
Qed.

(** Decoding a string element that is followed by packed elements. *)
Lemma decode_string (s acc : bytes) (t : tuple.Tuple) :
  tuple.decode None (tuple.Pack t) = Some t ->
  tuple.decode (Some acc) (tuple.escape s ++ x00 :: tuple.Pack t)
  = Some (string_of_list_byte (rev acc ++ s) :: t).
Proof.
  intros Ht. revert acc. induction s as [|b s IH]; intros acc; simpl.
  - rewrite app_nil_r. destruct t as [|s' t]; simpl; [done|].
    simpl in Ht. by rewrite Ht.
  - destruct (Byte.eqb b x00) eqn:E; simpl.
    + apply byte_eqb_eq in E as ->. rewrite IH. simpl.
      by rewrite <- app_assoc.
    + rewrite E, IH. simpl. by rewrite <- app_assoc.
Qed.

(** Codec round trip, on tuples of strings. *)
Lemma Unpack_Pack (t : tuple.Tuple) : tuple.Unpack (tuple.Pack t) = Some t.
Proof.
  unfold tuple.Unpack. induction t as [|s t IH]; [done|].
  simpl. rewrite <- app_assoc. simpl. rewrite decode_string by done.
  simpl. by rewrite string_of_list_byte_of_string.
Qed.

Lemma Pack_inj (t1 t2 : tuple.Tuple) : tuple.Pack t1 = tuple.Pack t2 -> t1 = t2.
Proof.
  intros E. assert (Some t1 = Some t2) as [= ->]; [|done].
  by rewrite <- !Unpack_Pack, E.
Qed.

(** The encoding of one string keeps the order of the strings. *)
Lemma compare_escape (a b : bytes) :
  Bytes.compare (tuple.escape a ++ [x00]) (tuple.escape b ++ [x00])
  = Bytes.compare a b.
Proof.
  revert b. induction a as [|x a IH]; intros [|y b]; simpl; try done.
  - destruct (Byte.eqb y x00) eqn:E; simpl; [done|].
    apply byte_eqb_neq in E. rewrite <- to_N_zero in E.
    by destruct (Byte.to_N y).
  - destruct (Byte.eqb x x00) eqn:E; simpl; [done|].
    apply byte_eqb_neq in E. rewrite <- to_N_zero in E.
    by destruct (Byte.to_N x).
  - destruct (Byte.eqb x x00) eqn:Ex, (Byte.eqb y x00) eqn:Ey; simpl.
    + apply byte_eqb_eq in Ex as ->, Ey as ->. simpl. apply IH.
    + apply byte_eqb_eq in Ex as ->. apply byte_eqb_neq in Ey.
      rewrite <- to_N_zero in Ey. simpl. by destruct (Byte.to_N y).
    + apply byte_eqb_eq in Ey as ->. apply byte_eqb_neq in Ex.
      rewrite <- to_N_zero in Ex. simpl. by destruct (Byte.to_N x).
    + by rewrite IH.
Qed.

Lemma compare_encodeString (a b : string) :
  Bytes.compare (tuple.Pack [a]) (tuple.Pack [b])
  = Bytes.compare (list_byte_of_string a) (list_byte_of_string b).
Proof.
  simpl. rewrite !app_nil_r. apply compare_escape.
Qed.

End TupleFacts.

Section KeyFacts.
Import subspace fdb scheduler.

Variable schedulingDir : Subspace.

Abbreviation courseSS := (courseSS schedulingDir).
Abbreviation attendSS := (attendSS schedulingDir).
Abbreviation classKey := (classKey schedulingDir).
Abbreviation attendKey := (attendKey schedulingDir).

Lemma inRange_iff (s : Subspace) (k : bytes) :
  inRange (FDBRangeKeys s) k = true <->
  exists c r, k = rawPrefix s ++ c :: r /\ (Byte.to_N c < 255)%N.
Proof. apply inRange_prefix. Qed.

Lemma inRange_Pack (s : Subspace) (e : string) (t : tuple.Tuple) :
  inRange (FDBRangeKeys s) (Pack s (e :: t)) = true.
Proof.
  apply inRange_iff. eexists x02, _. split; [reflexivity|]. by vm_compute.
Qed.

Lemma inRange_Sub (s : Subspace) (name : string) (k : bytes) :
  inRange (FDBRangeKeys (Sub s name)) k = true ->
  inRange (FDBRangeKeys s) k = true.
Proof.
  rewrite !inRange_iff. intros (c & r & -> & _). simpl.
  rewrite <- !app_assoc. simpl. eexists x02, _. split; [reflexivity|].
  by vm_compute.
Qed.

Lemma classKey_inRange (c : string) :
  inRange (FDBRangeKeys courseSS) (classKey c) = true.
Proof. apply inRange_Pack. Qed.

Lemma attendKey_inRange_dir (s c : string) :
  inRange (FDBRangeKeys schedulingDir) (attendKey s c) = true.
Proof. eapply inRange_Sub, inRange_Pack. Qed.

(** The two regions are apart: no attendance key lies in the range of the
class subspace. *)
Lemma attendKey_not_class (s c : string) :
  inRange (FDBRangeKeys courseSS) (attendKey s c) = false.
Proof.
  apply not_true_is_false. rewrite inRange_iff.
  intros (b & r & E & _). unfold scheduler.attendKey, Pack in E. simpl in E.
  rewrite <- !app_assoc in E. apply app_inv_head in E. simpl in E.
  discriminate E.
Qed.

Lemma attendKey_ne_classKey (s c c' : string) : attendKey s c <> classKey c'.
Proof.
  intros E. pose proof (attendKey_not_class s c) as H.
  rewrite E, classKey_inRange in H. discriminate H.
Qed.

Lemma classKey_inj (a b : string) : classKey a = classKey b -> a = b.
Proof.
  unfold scheduler.classKey, Pack. intros E. apply app_inv_head in E.
  by apply Pack_inj in E as [= ->].
Qed.

Lemma attendKey_inj (s c s' c' : string) :
  attendKey s c = attendKey s' c' -> s = s' /\ c = c'.
Proof.
  unfold scheduler.attendKey, Pack. intros E. apply app_inv_head in E.
  by apply Pack_inj in E as [= -> ->].
Qed.

Lemma Unpack_classKey (c : string) : Unpack courseSS (classKey c) = Some [c].
Proof.
  unfold Unpack, scheduler.classKey, Pack. rewrite hasPrefix_app.
  rewrite drop_app_length. apply Unpack_Pack.
Qed.

(** Class keys are ordered as their names are. *)
Lemma compare_classKey (a b : string) :
  Bytes.compare (classKey a) (classKey b)
  = Bytes.compare (list_byte_of_string a) (list_byte_of_string b).
Proof.
  unfold scheduler.classKey, Pack. rewrite compare_app.
  apply compare_encodeString.
Qed.

End KeyFacts.

(* ================================================================== *)
(** * Facts about the store and the transaction runner                 *)
(* ================================================================== *)

Section StoreFacts.
Import subspace fdb.

Lemma lookup_ClearRange (r : bytes * bytes) (st : Store) (k : bytes) :
  ClearRange r st !! k = if inRange r k then None else st !! k.
Proof.
  unfold ClearRange. destruct (inRange r k) eqn:E.
  - apply map_lookup_filter_None_2. right. intros x _. simpl. congruence.
  - destruct (st !! k) as [v|] eqn:Hk.
    + by apply map_lookup_filter_Some_2.
    + apply map_lookup_filter_None_2. by left.
Qed.

#[local] Instance kvLe_trans : Transitive kvLe.
Proof. intros x y z. apply leb_trans. Qed.

#[local] Instance kvLe_total : Total kvLe.
Proof. intros x y. apply leb_total. Qed.

Lemma elem_of_GetRange (r : bytes * bytes) (st : Store) (k v : bytes) :
  (k, v) ∈ GetRange r st <-> st !! k = Some v /\ inRange r k = true.
Proof.
  unfold GetRange. rewrite merge_sort_Permutation, list_elem_of_filter.
  rewrite elem_of_map_to_list. simpl. tauto.
Qed.

Lemma GetRange_sorted (r : bytes * bytes) (st : Store) :
  StronglySorted kvLe (GetRange r st).
Proof. apply StronglySorted_merge_sort; apply _. Qed.

Lemma GetRange_NoDup (r : bytes * bytes) (st : Store) :
  NoDup (GetRange r st).*1.
Proof.
  unfold GetRange. rewrite merge_sort_Permutation.
  eapply sublist_NoDup; [apply (NoDup_fst_map_to_list st)|].
  apply fmap_sublist, sublist_filter.
Qed.

(** [Transact] on a function that reports no error, by the fate of the
transactor; [Transact_writes] is the case of a function that only writes. *)
Lemma retryable_returns {A} (f : Store -> Run A) (script : list Attempt)
  (st view : Store) (ret : A) :
  f st = Returns ret None view ->
  retryable f script st
  = match scriptFate script with
    | Committed => Returns ret None view
    | Failed code => Returns ret (Some (FdbError code)) st
    | Unsettled => Pending
    end.
Proof.
  intros Hf. induction script as [|a rest IH]; simpl; [done|].
  unfold wrapped. rewrite Hf.
  destruct (commitError a) as [code|]; [|done]. simpl.
  by destruct (onErrorError a).
Qed.

Lemma Transact_returns {A} `{Inhabited A} (t : Transactor) (f : Store -> Run A)
  (st view : Store) (ret : A) :
  f st = Returns ret None view ->
  match fate t with
  | Committed => Transact t f st = Returns ret None view
  | Failed code => exists r, Transact t f st = Returns r (Some (FdbError code)) st
  | Unsettled => Transact t f st = Pending
  end.
Proof.
  intros Hf. destruct t as [db|]; simpl; [|done].
  destruct (createTransactionError db) as [code|]; [by eexists|].
  rewrite (retryable_returns _ _ _ _ _ Hf).
  destruct (scriptFate (attempts db)); eauto.
Qed.

Lemma Transact_writes (t : Transactor) (g : Store -> Store) (st : Store) :
  Transact t (fun tr => Returns () None (g tr)) st = outcome t st (g st).
Proof.
  pose proof (Transact_returns t (fun tr => Returns () None (g tr)) st (g st) ()
                eq_refl) as H.
  unfold outcome. destruct (fate t); [done| |done].
  destruct H as [[] H]. done.
Qed.

End StoreFacts.

(* ================================================================== *)
(** * The operations of the scheduler                                  *)
(* ================================================================== *)

Section SchedulerFacts.
Import subspace fdb scheduler.

Variable schedulingDir : Subspace.

Abbreviation courseSS := (courseSS schedulingDir).
Abbreviation attendSS := (attendSS schedulingDir).
Abbreviation classKey := (classKey schedulingDir).
Abbreviation attendKey := (attendKey schedulingDir).
Abbreviation signup := (signup schedulingDir).
Abbreviation drop := (drop schedulingDir).
Abbreviation initialize := (initialize schedulingDir).
Abbreviation initializeBody := (initializeBody schedulingDir).
Abbreviation run := (run schedulingDir).
Abbreviation applyOp := (applyOp schedulingDir).

Lemma signup_outcome (t : Transactor) (s c : string) (st : Store) :
  signup t s c st = outcome t st (<[attendKey s c := []]> st).
Proof. apply (Transact_writes t (Set_ (attendKey s c) [])). Qed.

Lemma drop_outcome (t : Transactor) (s c : string) (st : Store) :
  drop t s c st = outcome t st (delete (attendKey s c) st).
Proof. apply (Transact_writes t (Clear (attendKey s c))). Qed.

Lemma initialize_outcome (db : Database) (classes : list string) (st : Store) :
  initialize db classes st = outcome (OnDatabase db) st (initializeBody classes st).
Proof. apply (Transact_writes (OnDatabase db) (initializeBody classes)). Qed.

Lemma outcome_returns (t : Transactor) (st st1 st' : Store) (r : unit) (e : error) :
  outcome t st st1 = Returns r e st' -> st' = st1 \/ st' = st.
Proof. unfold outcome. destruct (fate t); intros [=]; auto. Qed.

Lemma outcome_settled (t : Transactor) (st st1 : Store) :
  fate t <> Unsettled -> exists e st', outcome t st st1 = Returns () e st'.
Proof. unfold outcome. destruct (fate t); intros ?; by eauto. Qed.

(** A key that is no attendance key is out of reach of [signup] and
[drop]. *)
Lemma applyOp_other (op : Op) (st st' : Store) (r : unit) (e : error) (k : bytes) :
  applyOp op st = Returns r e st' ->
  (forall s c, k <> attendKey s c) ->
  st' !! k = st !! k.
Proof.
  intros H Hk. destruct op as [t s c|t s c]; simpl in H.
  - rewrite signup_outcome in H. apply outcome_returns in H as [-> | ->]; [|done].
    apply lookup_insert_ne. apply not_eq_sym, Hk.
  - rewrite drop_outcome in H. apply outcome_returns in H as [-> | ->]; [|done].
    apply lookup_delete_ne. apply not_eq_sym, Hk.
Qed.

Lemma run_other (ops : list Op) (st st' : Store) (k : bytes) :
  run ops st = Some st' ->
  (forall s c, k <> attendKey s c) ->
  st' !! k = st !! k.
Proof.
  intros H Hk. revert st H. induction ops as [|op ops IH]; intros st H.
  - by injection H as ->.
  - simpl in H. destruct (applyOp op st) as [r e st1| |] eqn:E; try done.
    rewrite (IH _ H). by eapply applyOp_other.
Qed.

Lemma run_class_region (ops : list Op) (st st' : Store) (k : bytes) :
  run ops st = Some st' ->
  inRange (FDBRangeKeys courseSS) k = true ->
  st' !! k = st !! k.
Proof.
  intros H Hk. eapply run_other; [done|]. intros s c ->.
  by rewrite attendKey_not_class in Hk.
Qed.

(** A sequence of calls runs to its end when the store settles each. *)
Lemma run_settled (ops : list Op) (st : Store) :
  Forall (fun op => fate (opTransactor op) <> Unsettled) ops ->
  is_Some (run ops st).
Proof.
  intros H. revert st. induction H as [|op ops Hop _ IH]; intros st; [by eexists|].
  simpl. destruct op as [t s c|t s c]; simpl in *.
  - rewrite signup_outcome.
    destruct (outcome_settled t st (<[attendKey s c := []]> st) Hop)
      as (e & st' & ->). apply IH.
  - rewrite drop_outcome.
    destruct (outcome_settled t st (delete (attendKey s c) st) Hop)
      as (e & st' & ->). apply IH.
Qed.

(** The store that the initialisation writes, key by key. *)
Lemma lookup_initializeBody (classes : list string) (st : Store) (k : bytes) :
  initializeBody classes st !! k
  = if bool_decide (k ∈ classKey <$> classes) then Some (seats 100)
    else if inRange (FDBRangeKeys schedulingDir) k then None
    else st !! k.
Proof.
  unfold scheduler.initializeBody.
  induction classes as [|c classes IH] using rev_ind; simpl.
  - apply lookup_ClearRange.
  - rewrite foldl_snoc, fmap_app. unfold Set_ at 1. simpl.
    destruct (decide (k = classKey c)) as [->|Hne].
    + rewrite lookup_insert_eq, bool_decide_eq_true_2; [done|].
      apply elem_of_app. right. apply list_elem_of_singleton. done.
    + rewrite lookup_insert_ne by (by apply not_eq_sym). rewrite IH.
      apply (f_equal (fun b : bool => if b then _ else _)).
      apply bool_decide_ext. rewrite elem_of_app, list_elem_of_singleton.
      tauto.
Qed.

(** ** signup *)

(** C1, as the program has it. [signup] does not look at the class record:
whatever seat count [k] the class holds, also [k <= 0], the call's outcome
is the store's alone. When its transaction commits it returns [nil],
having written the attendance record and nothing else; when the store
fails it returns the store's error and the state is as before. The seat
count is not decremented, and stays what it is under every sequence of
[signup] and [drop] calls. *)
Theorem signup_ignores_capacity (t : Transactor) (s c : string) (k : Z)
  (st : Store) :
  st !! classKey c = Some (seats k) ->
  st !! attendKey s c = None ->
  let st1 := <[attendKey s c := []]> st in
  signup t s c st = outcome t st st1
  /\ st1 !! attendKey s c = Some []
  /\ st1 !! classKey c = Some (seats k)
  /\ forall ops st', run ops st = Some st' -> st' !! classKey c = Some (seats k).
Proof.
  intros Hc Ha st1. split; [apply signup_outcome|]. split; [apply lookup_insert_eq|].
  split.
  - unfold st1. rewrite lookup_insert_ne; [done|]. apply attendKey_ne_classKey.
  - intros ops st' H. rewrite <- Hc. eapply run_class_region; [done|].
    apply classKey_inRange.
Qed.

(** C2, as the program has it. [signup] is idempotent: a second committed
call leaves the state the first one made; where the attendance record is
already there, with its empty value, the call changes nothing; from a state
without the record the two calls add exactly one key; and no key other
than an attendance key changes, so the seat count is decremented neither
twice nor once. *)
Theorem signup_idempotent (t1 t2 : Transactor) (s c : string) (st : Store) :
  fate t1 = Committed ->
  fate t2 = Committed ->
  let st1 := <[attendKey s c := []]> st in
  signup t1 s c st = Returns () None st1
  /\ signup t2 s c st1 = Returns () None st1
  /\ (st !! attendKey s c = Some [] -> st1 = st)
  /\ (st !! attendKey s c = None -> size st1 = S (size st))
  /\ forall c', st1 !! classKey c' = st !! classKey c'.
Proof.
  intros H1 H2 st1. rewrite !signup_outcome. unfold outcome. rewrite H1, H2.
  split; [done|]. split; [by unfold st1; rewrite insert_insert_eq|].
  split; [apply insert_id|]. split; [apply map_size_insert_None|].
  intros c'. apply lookup_insert_ne, attendKey_ne_classKey.
Qed.

(** C3, as the program has it. [signup] does not read the class record:
where the class has none, the call still goes by the store alone. On
commit it returns [nil] and has written the attendance record; it creates
no class record; the only errors are the store's. *)
Theorem signup_without_class (t : Transactor) (s c : string) (st : Store) :
  st !! classKey c = None ->
  let st1 := <[attendKey s c := []]> st in
  signup t s c st = outcome t st st1
  /\ st1 !! attendKey s c = Some []
  /\ st1 !! classKey c = None.
Proof.
  intros Hc st1. split; [apply signup_outcome|]. split; [apply lookup_insert_eq|].
  unfold st1. rewrite lookup_insert_ne; [done|]. apply attendKey_ne_classKey.
Qed.

(** ** drop *)

(** C4, as the program has it. [drop] clears the attendance key and does
nothing else: its outcome is the store's alone, whether or not the class
has a record; without an attendance record the cleared state is the
state itself; with one, the record is gone and every other key, the class
records among them, is as before: the seat count is not incremented. *)
Theorem drop_clears_record_only (t : Transactor) (s c : string) (st : Store) :
  let st1 := delete (attendKey s c) st in
  drop t s c st = outcome t st st1
  /\ (st !! attendKey s c = None -> st1 = st)
  /\ st1 !! attendKey s c = None
  /\ (forall k, k <> attendKey s c -> st1 !! k = st !! k)
  /\ forall c', st1 !! classKey c' = st !! classKey c'.
Proof.
  intros st1. split; [apply drop_outcome|]. split; [apply delete_id|].
  split; [apply lookup_delete_eq|]. split.
  - intros k Hk. by apply lookup_delete_ne.
  - intros c'. apply lookup_delete_ne, attendKey_ne_classKey.
Qed.

(** C9. From a state where class [c] holds the seat count [k] and student
[s] has no attendance record for it, [signup s c] followed by a committed
[drop s c] ends in a state where [c] holds [k] and there is no
attendance record for [(s, c)]: the very state the pair started from. *)
Theorem signup_then_drop (t1 t2 : Transactor) (s c : string) (k : Z)
  (st : Store) :
  st !! classKey c = Some (seats k) ->
  st !! attendKey s c = None ->
  fate t1 <> Unsettled ->
  fate t2 = Committed ->
  exists e st1 st2,
    signup t1 s c st = Returns () e st1
    /\ drop t2 s c st1 = Returns () None st2
    /\ st2 !! classKey c = Some (seats k)
    /\ st2 !! attendKey s c = None
    /\ st2 = st.
Proof.
  intros Hc Ha H1 H2.
  assert (forall st1, st1 = <[attendKey s c := []]> st \/ st1 = st ->
            drop t2 s c st1 = Returns () None st) as Hdrop.
  { intros st1 Hst1. rewrite drop_outcome. unfold outcome. rewrite H2. f_equal.
    destruct Hst1 as [-> | ->]; [by apply delete_insert_id | by apply delete_id]. }
  rewrite signup_outcome. unfold outcome. destruct (fate t1); [| |done].
  - eexists _, _, st. split; [done|]. split; [|done]. apply Hdrop. by left.
  - eexists _, _, st. split; [done|]. split; [|done]. apply Hdrop. by right.
Qed.

(** ** initialize *)

(** C5, as the program has it. The initialisation transaction takes the
class list only; the seat count it writes is the constant 100. Once
committed, every listed class holds [seats 100], the directory's range
holds the class records of the listed classes and no other key (so no
attendance record), and keys outside the range are untouched. *)
Theorem initialize_resets (db : Database) (classes : list string) (st : Store) :
  let st1 := initializeBody classes st in
  initialize db classes st = outcome (OnDatabase db) st st1
  /\ (forall c, c ∈ classes -> st1 !! classKey c = Some (seats 100))
  /\ (forall k, inRange (FDBRangeKeys schedulingDir) k = true ->
        is_Some (st1 !! k) -> exists c, c ∈ classes /\ k = classKey c)
  /\ (forall s c, st1 !! attendKey s c = None)
  /\ (forall k, inRange (FDBRangeKeys schedulingDir) k = false ->
        (forall c, k <> classKey c) -> st1 !! k = st !! k).
Proof.
  intros st1. split; [apply initialize_outcome|]. unfold st1.
  split; [|split; [|split]].
  - intros c Hc. rewrite lookup_initializeBody, bool_decide_eq_true_2; [done|].
    apply list_elem_of_fmap. by exists c.
  - intros k Hk. rewrite lookup_initializeBody, Hk.
    case_bool_decide as Hin; [|by intros [? ?]].
    intros _. apply list_elem_of_fmap in Hin as (c & -> & Hc). by exists c.
  - intros s c. rewrite lookup_initializeBody, attendKey_inRange_dir.
    rewrite bool_decide_eq_false_2; [done|].
    intros (c' & E & _)%list_elem_of_fmap. by apply attendKey_ne_classKey in E.
  - intros k Hk Hne. rewrite lookup_initializeBody, Hk.
    rewrite bool_decide_eq_false_2; [done|].
    intros (c' & E & _)%list_elem_of_fmap. by apply Hne in E.
Qed.

(** The class region after a committed initialisation and any calls of
[signup] and [drop]. *)
Lemma class_region_after (db : Database) (classes : list string)
  (st0 st1 st : Store) (ops : list Op) (k : bytes) :
  initialize db classes st0 = Returns () None st1 ->
  run ops st1 = Some st ->
  inRange (FDBRangeKeys courseSS) k = true ->
  st !! k = if bool_decide (k ∈ classKey <$> classes) then Some (seats 100)
            else None.
Proof.
  rewrite initialize_outcome. unfold outcome.
  destruct (fate (OnDatabase db)); intros [= <-] Hrun Hk.
  rewrite (run_class_region _ _ _ _ Hrun Hk), lookup_initializeBody.
  by rewrite (inRange_Sub _ _ _ Hk).
Qed.

(** C8. After a committed initialisation over [classes], and through any
sequence of [signup] and [drop] calls, the keys of the class region are
the class keys of [classes] and nothing else, each with the value the
initialisation gave it; and such a sequence runs to its end whenever the
store settles every call. *)
Theorem class_keys_fixed (db : Database) (classes : list string)
  (st0 st1 : Store) (ops : list Op) :
  initialize db classes st0 = Returns () None st1 ->
  (Forall (fun op => fate (opTransactor op) <> Unsettled) ops ->
   is_Some (run ops st1))
  /\ forall st, run ops st1 = Some st ->
      forall k, inRange (FDBRangeKeys courseSS) k = true ->
        st !! k = st1 !! k
        /\ (is_Some (st !! k) <-> exists c, c ∈ classes /\ k = classKey c).
Proof.
  intros Hinit. split; [apply run_settled|]. intros st Hrun k Hk.
  split; [by eapply run_class_region|].
  rewrite (class_region_after _ _ _ _ _ _ _ Hinit Hrun Hk).
  case_bool_decide as Hin; split.
  - intros _. apply list_elem_of_fmap in Hin as (c & -> & Hc). by exists c.
  - by eexists.
  - by intros [? ?].
  - intros (c & Hc & ->). destruct Hin. apply list_elem_of_fmap. by exists c.
Qed.

(** ** availableClasses *)

Lemma collect_class_keys (kvs : list (bytes * bytes)) (acc : list string) :
  Forall (fun kv => exists c, kv.1 = classKey c) kvs ->
  exists names, kvs.*1 = classKey <$> names
    /\ collect schedulingDir kvs acc = ReadReturns (acc ++ names) None.
Proof.
  intros H. revert acc. induction H as [|kv kvs [c Hc] _ IH]; intros acc.
  - exists []. by rewrite app_nil_r.
  - destruct (IH (acc ++ [c])) as (names & Hk & Hcol). exists (c :: names).
    split; [by rewrite !fmap_cons, Hc, Hk|].
    simpl. rewrite Hc, Unpack_classKey, Hcol. by rewrite <- app_assoc.
Qed.

Lemma names_sorted (kvs : list (bytes * bytes)) (names : list string) :
  StronglySorted kvLe kvs ->
  NoDup kvs.*1 ->
  kvs.*1 = classKey <$> names ->
  StronglySorted string_lt names.
Proof.
  revert kvs. induction names as [|c names IH]; intros [|kv kvs] Hs Hn E;
    try done; [constructor|].
  rewrite !fmap_cons in E. rewrite fmap_cons in Hn.
  assert (kv.1 = classKey c) as E1 by congruence.
  assert (kvs.*1 = classKey <$> names) as E2 by congruence.
  apply StronglySorted_inv in Hs as [Hs Hle].
  apply NoDup_cons in Hn as [Hnotin Hn]. constructor; [by eapply IH|].
  apply Forall_forall. intros c' Hc'.
  assert (classKey c' ∈ kvs.*1) as Hin.
  { rewrite E2. apply list_elem_of_fmap. by exists c'. }
  apply list_elem_of_fmap in Hin as (kv' & Hkv' & Hin).
  rewrite Forall_forall in Hle. specialize (Hle kv' Hin). unfold kvLe in Hle.
  rewrite E1, <- Hkv' in Hle. apply leb_lt_or_eq in Hle as [Hlt|Heq].
  - unfold string_lt. rewrite ltb_lt, <- (compare_classKey schedulingDir). done.
  - destruct Hnotin. rewrite E1, Heq, Hkv'. apply list_elem_of_fmap. by exists kv'.
Qed.

(** C6. In every state reached from a committed initialisation over
[classes] by calls of [signup] and [drop], [availableClasses] leaves the
store as it is (it only reads); when its transaction goes through, it
returns the names decoded from the keys that the scan of the class range
delivered, which are class keys only: the listed classes, each once, in
ascending order of Go's string comparison; when the store fails, it
returns the store's error and no names. *)
Theorem availableClasses_sorted (db : Database) (classes : list string)
  (st0 st1 st : Store) (ops : list Op) (t : Transactor) :
  initialize db classes st0 = Returns () None st1 ->
  run ops st1 = Some st ->
  exists names,
    availableClasses schedulingDir t st
    = match fate t with
      | Committed => Returns names None st
      | Failed code => Returns [] (Some (FdbError code)) st
      | Unsettled => Pending
      end
    /\ (GetRange (FDBRangeKeys courseSS) st).*1 = classKey <$> names
    /\ StronglySorted string_lt names
    /\ NoDup names
    /\ forall c, c ∈ names <-> c ∈ classes.
Proof.
  intros Hinit Hrun.
  pose proof (fun k => class_region_after _ _ _ _ _ _ k Hinit Hrun) as Hreg.
  set (kvs := GetRange (FDBRangeKeys courseSS) st).
  assert (Forall (fun kv => exists c, kv.1 = classKey c) kvs) as Hall.
  { apply Forall_forall. intros [k v] [Hk Hr]%elem_of_GetRange.
    rewrite (Hreg k Hr) in Hk. case_bool_decide as Hin; [|done].
    apply list_elem_of_fmap in Hin as (c & -> & _). by exists c. }
  destruct (collect_class_keys kvs [] Hall) as (names & Hkeys & Hcol).
  simpl in Hcol. exists names. split; [|split; [done|split; [|split]]].
  - unfold availableClasses, ReadTransact.
    pose proof (Transact_returns t
      (fun view => match collect schedulingDir
                           (GetRange (FDBRangeKeys courseSS) view) [] with
                   | ReadReturns ret err => Returns ret err view
                   | ReadPanics => Panics
                   end) st st names) as HT.
    simpl in HT. fold kvs in HT. rewrite Hcol in HT. specialize (HT eq_refl).
    destruct (fate t); [by rewrite HT | by destruct HT as [r ->] | by rewrite HT].
  - eapply names_sorted; [apply GetRange_sorted|apply GetRange_NoDup|done].
  - eapply NoDup_fmap_1. rewrite <- Hkeys. apply GetRange_NoDup.
  - intros c. transitivity (classKey c ∈ kvs.*1).
    + rewrite Hkeys. split.
      * intros Hc. apply list_elem_of_fmap. by exists c.
      * intros (c' & E & Hc')%list_elem_of_fmap.
        by apply classKey_inj in E as ->.
    + split.
      * intros ([k v] & E & [Hk Hr]%elem_of_GetRange)%list_elem_of_fmap.
        simpl in E. subst k. rewrite (Hreg _ Hr) in Hk.
        case_bool_decide as Hin; [|done].
        apply list_elem_of_fmap in Hin as (c' & E & Hc').
        by apply classKey_inj in E as ->.
      * intros Hc. apply list_elem_of_fmap. exists (classKey c, seats 100).
        split; [done|]. apply elem_of_GetRange.
        split; [|apply classKey_inRange].
        rewrite (Hreg _ (classKey_inRange _ c)), bool_decide_eq_true_2; [done|].
        apply list_elem_of_fmap. by exists c.
Qed.

(** ** signup without Transact *)

Lemma signupLoop_commits (key : bytes) (oks rest : list Attempt) (st : Store)
  (log : list Call) :
  Forall (fun a => commitError a = None) oks ->
  signupLoop key (oks ++ rest) st log
  = signupLoop key rest
      (match oks with [] => st | _ :: _ => <[key := []]> st end)
      (log ++ mjoin (replicate (length oks) [CallSet key []; CallCommit])).
Proof.
  intros H. revert st log. induction H as [|a oks Ha _ IH]; intros st log.
  - simpl. by rewrite app_nil_r.
  - simpl. rewrite Ha. simpl. rewrite IH. unfold Set_. f_equal.
    + destruct oks; [done|]. by rewrite insert_insert_eq.
    + by rewrite <- app_assoc.
Qed.

Lemma signupLoop_returns (key : bytes) (script : list Attempt) (st st' : Store)
  (log log' : list Call) (err : error) :
  signupLoop key script st log = Returns log' err st' ->
  err <> None /\ forall code, CallOnError code ∈ log' -> CallOnError code ∈ log.
Proof.
  revert st log. induction script as [|a rest IH]; intros st log; simpl; [done|].
  destruct (commitError a) as [code|]; simpl.
  - intros [= <- <- <-]. split; [done|]. intros c.
    rewrite elem_of_app, !elem_of_cons, elem_of_nil.
    by intros [?|[?|[?|?]]].
  - intros H. apply IH in H as [He Hlog]. split; [done|]. intros c Hc.
    apply Hlog in Hc. revert Hc.
    rewrite elem_of_app, !elem_of_cons, elem_of_nil.
    by intros [?|[?|[?|?]]].
Qed.

(** C10. The loop of [signupWithoutTransact] ends by its error path only.
Whatever it returns is an error, and it has not called [OnError]. Where
the commits of the first attempts succeed and then one fails with [code],
the call returns [FdbError code] at the first check, after one [Set] and
one [Commit] per attempt, whatever [OnError] would have answered. Where
every scripted commit succeeds, the call has not returned when the script
ends: a successful commit only starts the next pass. *)
Theorem signupWithoutTransact_exits_on_error_only (db : Database)
  (s c : string) (st : Store) :
  let key := attendKey s c in
  (forall log err st',
     signupWithoutTransact schedulingDir db s c st = Returns log err st' ->
     err <> None /\ forall code, CallOnError code ∉ log)
  /\ (forall oks a rest code,
        createTransactionError db = None ->
        attempts db = oks ++ a :: rest ->
        Forall (fun a => commitError a = None) oks ->
        commitError a = Some code ->
        signupWithoutTransact schedulingDir db s c st
        = Returns
            (mjoin (replicate (S (length oks)) [CallSet key []; CallCommit]))
            (Some (FdbError code))
            (match oks with [] => st | _ :: _ => <[key := []]> st end))
  /\ (createTransactionError db = None ->
      Forall (fun a => commitError a = None) (attempts db) ->
      signupWithoutTransact schedulingDir db s c st = Pending).
Proof.
  intros key. unfold signupWithoutTransact. fold (attendKey s c). fold key.
  split; [|split].
  - intros log err st'. destruct (createTransactionError db).
    + intros [= <- <- <-]. split; [done|]. intros code. apply not_elem_of_nil.
    + intros H. apply signupLoop_returns in H as [He Hlog]. split; [done|].
      intros code Hc. apply Hlog in Hc. by apply elem_of_nil in Hc.
  - intros oks a rest code -> -> Hoks Ha. rewrite signupLoop_commits by done.
    simpl. rewrite Ha. simpl. f_equal.
    generalize (length oks) as n.
    induction n as [|n IH]; simpl; [done|]. by rewrite <- IH.
  - intros -> Hoks. rewrite <- (app_nil_r (attempts db)).
    by rewrite signupLoop_commits.
Qed.

End SchedulerFacts.

(* ================================================================== *)
(** * The claims on concrete stores                                    *)
(* ================================================================== *)

Section Scenarios.
Import subspace fdb scheduler scenario.

Abbreviation classKey := (classKey dir).
Abbreviation attendKey := (attendKey dir).
Abbreviation signup := (signup dir).
Abbreviation drop := (drop dir).

(** Against C1 as stated: class [a] has no seat left and [s1] is not
enrolled, yet [signup] returns [nil] and the store has changed. *)
Lemma signup_full_class_counterexample :
  full !! classKey "a" = Some (seats 0)
  /\ full !! attendKey "s1" "a" = None
  /\ signup (OnDatabase steady) "s1" "a" full
     = Returns () None (<[attendKey "s1" "a" := []]> full)
  /\ <[attendKey "s1" "a" := []]> full <> full.
Proof.
  split; [by vm_compute|]. split; [by vm_compute|]. split; [reflexivity|].
  intros E. apply (f_equal (fun m : Store => m !! attendKey "s1" "a")) in E.
  rewrite lookup_insert_eq in E. vm_compute in E. discriminate E.
Qed.

Lemma signup_ignores_capacity_witness :
  full !! classKey "a" = Some (seats 0)
  /\ full !! attendKey "s1" "a" = None
  /\ signup (OnDatabase steady) "s1" "a" full
     = outcome (OnDatabase steady) full (<[attendKey "s1" "a" := []]> full).
Proof.
  split; [by vm_compute|]. split; [by vm_compute|].
  apply (signup_ignores_capacity dir (OnDatabase steady) "s1" "a" 0 full);
    by vm_compute.
Defined.

(** Against C2 as stated: after two calls of [signup] from a state without
the record, class [a] still holds 100 seats, not 99. *)
Lemma signup_twice_counterexample :
  fresh !! classKey "a" = Some (seats 100)
  /\ fresh !! attendKey "s1" "a" = None
  /\ exists st1 st2,
      signup (OnDatabase steady) "s1" "a" fresh = Returns () None st1
      /\ signup (OnDatabase steady) "s1" "a" st1 = Returns () None st2
      /\ st2 !! classKey "a" = Some (seats 100)
      /\ seats 100 <> seats (100 - 1).
Proof.
  split; [by vm_compute|]. split; [by vm_compute|].
  eexists _, _. split; [reflexivity|]. split; [reflexivity|].
  split; by vm_compute.
Qed.

Lemma signup_idempotent_witness :
  fate (OnDatabase steady) = Committed
  /\ fate OnTransaction = Committed
  /\ signup OnTransaction "s1" "a" (<[attendKey "s1" "a" := []]> fresh)
     = Returns () None (<[attendKey "s1" "a" := []]> fresh).
Proof.
  split; [reflexivity|]. split; [reflexivity|].
  apply (signup_idempotent dir (OnDatabase steady) OnTransaction "s1" "a" fresh);
    reflexivity.
Defined.

(** Against C3 as stated: the store holds no class record at all, yet
[signup] returns [nil] and the store has changed. *)
Lemma signup_unknown_class_counterexample :
  (∅ : Store) !! classKey "a" = None
  /\ signup (OnDatabase steady) "s1" "a" ∅
     = Returns () None (<[attendKey "s1" "a" := []]> ∅)
  /\ <[attendKey "s1" "a" := []]> (∅ : Store) <> ∅.
Proof.
  split; [reflexivity|]. split; [reflexivity|]. apply insert_non_empty.
Qed.

Lemma signup_without_class_witness :
  (∅ : Store) !! classKey "a" = None
  /\ signup OnTransaction "s1" "a" ∅
     = outcome OnTransaction ∅ (<[attendKey "s1" "a" := []]> ∅).
Proof.
  split; [reflexivity|].
  apply (signup_without_class dir OnTransaction "s1" "a" ∅). reflexivity.
Defined.

(** Against C4 as stated: [s1] is enrolled in [a], which holds 99 seats;
after [drop] it still holds 99, not 100. And where the class record is
missing, [drop] returns [nil]. *)
Lemma drop_counterexample :
  enrolled !! attendKey "s1" "a" = Some []
  /\ enrolled !! classKey "a" = Some (seats 99)
  /\ (exists st1,
       drop (OnDatabase steady) "s1" "a" enrolled = Returns () None st1
       /\ st1 !! classKey "a" = Some (seats 99)
       /\ seats 99 <> seats (99 + 1))
  /\ orphan !! attendKey "s1" "a" = Some []
  /\ orphan !! classKey "a" = None
  /\ drop (OnDatabase steady) "s1" "a" orphan
     = Returns () None (delete (attendKey "s1" "a") orphan).
Proof.
  split; [by vm_compute|]. split; [by vm_compute|]. split.
  { eexists. split; [reflexivity|]. split; by vm_compute. }
  split; [by vm_compute|]. split; [by vm_compute|]. reflexivity.
Qed.

Lemma drop_clears_record_only_witness :
  fresh !! attendKey "s1" "a" = None
  /\ delete (attendKey "s1" "a") fresh = fresh.
Proof.
  split; [by vm_compute|].
  apply (drop_clears_record_only dir OnTransaction "s1" "a" fresh).
  by vm_compute.
Defined.

Lemma signup_then_drop_witness :
  fresh !! classKey "a" = Some (seats 100)
  /\ fresh !! attendKey "s1" "a" = None
  /\ fate (OnDatabase contended) <> Unsettled
  /\ fate OnTransaction = Committed
  /\ exists e st1 st2,
      signup (OnDatabase contended) "s1" "a" fresh = Returns () e st1
      /\ drop OnTransaction "s1" "a" st1 = Returns () None st2
      /\ st2 !! classKey "a" = Some (seats 100)
      /\ st2 !! attendKey "s1" "a" = None
      /\ st2 = fresh.
Proof.
  split; [by vm_compute|]. split; [by vm_compute|]. split; [by vm_compute|].
  split; [reflexivity|].
  apply (signup_then_drop dir (OnDatabase contended) OnTransaction "s1" "a" 100
           fresh); by vm_compute.
Defined.

(** Against C5 as stated: the call takes no seat count; asked for the
classes [a], [b], [c] (with 5 seats each in the claim), it writes 100. *)
Lemma initialize_fixed_seats_counterexample :
  exists st,
    initialize dir steady ["a"; "b"; "c"] ∅ = Returns () None st
    /\ st !! classKey "a" = Some (seats 100)
    /\ seats 100 <> seats 5.
Proof. eexists. split; [reflexivity|]. split; by vm_compute. Qed.

Lemma initialize_resets_witness :
  "b" ∈ ["a"; "b"; "c"]
  /\ inRange (FDBRangeKeys dir) (attendKey "s1" "a") = true
  /\ initializeBody dir ["a"; "b"; "c"] enrolled !! classKey "b"
     = Some (seats 100).
Proof.
  assert ("b" ∈ ["a"; "b"; "c"]) as Hb by (apply list_elem_of_In; simpl; auto).
  split; [exact Hb|]. split; [by vm_compute|].
  by apply (initialize_resets dir steady ["a"; "b"; "c"] enrolled).
Defined.

Lemma class_keys_fixed_witness :
  initialize dir steady ["a"] orphan
  = Returns () None (initializeBody dir ["a"] orphan)
  /\ forall st,
      run dir [OpSignup (OnDatabase contended) "s2" "a"; OpDrop OnTransaction "s1" "a"]
          (initializeBody dir ["a"] orphan) = Some st ->
      forall k, inRange (FDBRangeKeys (courseSS dir)) k = true ->
        st !! k = initializeBody dir ["a"] orphan !! k
        /\ (is_Some (st !! k) <-> exists c, c ∈ ["a"] /\ k = classKey c).
Proof.
  split; [reflexivity|].
  apply (class_keys_fixed dir steady ["a"] orphan). reflexivity.
Defined.

Lemma availableClasses_sorted_witness :
  initialize dir steady ["b"; "a"; "c"] orphan
  = Returns () None (initializeBody dir ["b"; "a"; "c"] orphan)
  /\ run dir [OpSignup (OnDatabase contended) "s1" "a"; OpDrop OnTransaction "s2" "b"]
         (initializeBody dir ["b"; "a"; "c"] orphan)
     = Some (delete (attendKey "s2" "b")
               (<[attendKey "s1" "a" := []]>
                  (initializeBody dir ["b"; "a"; "c"] orphan)))
  /\ exists names,
      availableClasses dir (OnDatabase contended)
        (delete (attendKey "s2" "b")
           (<[attendKey "s1" "a" := []]>
              (initializeBody dir ["b"; "a"; "c"] orphan)))
      = Returns names None
          (delete (attendKey "s2" "b")
             (<[attendKey "s1" "a" := []]>
                (initializeBody dir ["b"; "a"; "c"] orphan)))
      /\ StronglySorted string_lt names
      /\ forall c, c ∈ names <-> c ∈ ["b"; "a"; "c"].
Proof.
  split; [reflexivity|]. split; [reflexivity|].
  destruct (availableClasses_sorted dir steady ["b"; "a"; "c"] orphan _ _
              [OpSignup (OnDatabase contended) "s1" "a"; OpDrop OnTransaction "s2" "b"]
              (OnDatabase contended) eq_refl eq_refl)
    as (names & H1 & _ & H3 & _ & H5).
  exists names. split; [exact H1|]. split; [exact H3 | exact H5].
Defined.

(** The listing of that state, computed. *)
Example availableClasses_computed :
  match availableClasses dir OnTransaction
          (delete (attendKey "s2" "b")
             (<[attendKey "s1" "a" := []]>
                (initializeBody dir ["b"; "a"; "c"] orphan))) with
  | Returns names None _ => names
  | _ => []
  end = ["a"; "b"; "c"].
Proof. by vm_compute. Qed.

Lemma signupWithoutTransact_exits_witness :
  createTransactionError contended = None
  /\ attempts contended = [] ++ Aborts 1020 None :: [Commits]
  /\ Forall (fun a => commitError a = None) []
  /\ commitError (Aborts 1020 None) = Some 1020
  /\ signupWithoutTransact dir contended "s1" "a" fresh
     = Returns [CallSet (attendKey "s1" "a") []; CallCommit]
               (Some (FdbError 1020)) fresh.
Proof.
  split; [reflexivity|]. split; [reflexivity|]. split; [constructor|].
  split; [reflexivity|].
  destruct (signupWithoutTransact_exits_on_error_only dir contended "s1" "a"
              fresh) as (_ & H & _).
  apply (H [] (Aborts 1020 None) [Commits] 1020); [reflexivity..|constructor|reflexivity].
Defined.

(** C7, on the code. The store answers the first commit with a conflict
that [OnError] would declare retryable, and would commit the second
attempt. [signupWithoutTransact] returns the conflict after one [Set] and
one [Commit], without calling [OnError] and without a second attempt, and
the record is not written; [signup] through [Transact] retries and
commits. On a store whose every commit succeeds, [signupWithoutTransact]
has not returned when the script ends, where [signup] returns [nil]. *)
Theorem signupWithoutTransact_gives_up_on_conflict :
  signupWithoutTransact dir contended "s1" "a" fresh
  = Returns [CallSet (attendKey "s1" "a") []; CallCommit]
            (Some (FdbError 1020)) fresh
  /\ signup (OnDatabase contended) "s1" "a" fresh
     = Returns () None (<[attendKey "s1" "a" := []]> fresh)
  /\ signupWithoutTransact dir steady "s1" "a" fresh = Pending
  /\ signup (OnDatabase steady) "s1" "a" fresh
     = Returns () None (<[attendKey "s1" "a" := []]> fresh).
Proof. repeat split; reflexivity. Qed.

End Scenarios.

(* ================================================================== *)
(** * The class list                                                   *)
(* ================================================================== *)

Section CatalogFacts.
Import catalog.

(** The innermost loop writes one row behind what is already filled. *)
Lemma fill_times (times : list string) (lv ty : string) (base k0 r : nat)
  (pre : list string) :
  length pre = (base + k0)%nat ->
  forRangeFrom k0 times
    (fun k tm => assign (base + k)%nat (Sprintf3 lv ty tm))
    (Some (pre ++ replicate (length times + r)%nat ""%string))
  = Some (pre ++ (Sprintf3 lv ty <$> times) ++ replicate r ""%string).
Proof.
  revert k0 pre. induction times as [|tm times IH]; intros k0 pre Hpre; [done|].
  simpl. rewrite decide_True by (rewrite length_app; simpl; lia).
  rewrite <- Hpre, <- (Nat.add_0_r (length pre)), insert_app_r. simpl.
  rewrite (cons_middle _ pre), app_assoc, (IH (S k0)).
  - by rewrite <- app_assoc.
  - rewrite length_app. simpl. lia.
Qed.

Lemma fill_times_all (times : list string) (lv ty : string) (base r : nat)
  (pre : list string) :
  length pre = base ->
  forRange times
    (fun k tm => assign (base + k)%nat (Sprintf3 lv ty tm))
    (Some (pre ++ replicate (length times + r)%nat ""%string))
  = Some (pre ++ (Sprintf3 lv ty <$> times) ++ replicate r ""%string).
Proof. intros H. apply fill_times. lia. Qed.

Lemma fill_types (types times : list string) (lv : string) (base j0 r : nat)
  (pre : list string) :
  length pre = (base + j0 * length times)%nat ->
  forRangeFrom j0 types
    (fun j ty =>
       forRange times
         (fun k tm => assign (base + j * length times + k)%nat (Sprintf3 lv ty tm)))
    (Some (pre ++ replicate (length types * length times + r)%nat ""%string))
  = Some (pre ++ (ty ← types; Sprintf3 lv ty <$> times)
              ++ replicate r ""%string).
Proof.
  revert j0 pre. induction types as [|ty types IH]; intros j0 pre Hpre; [done|].
  simpl.
  replace (length times + length types * length times + r)%nat
    with (length times + (length types * length times + r))%nat by lia.
  rewrite fill_times_all by lia. rewrite app_assoc, (IH (S j0)).
  - by rewrite <- !app_assoc.
  - rewrite length_app, length_fmap. lia.
Qed.

Lemma fill_types_all (types times : list string) (lv : string) (base r : nat)
  (pre : list string) :
  length pre = base ->
  forRange types
    (fun j ty =>
       forRange times
         (fun k tm => assign (base + j * length times + k)%nat (Sprintf3 lv ty tm)))
    (Some (pre ++ replicate (length types * length times + r)%nat ""%string))
  = Some (pre ++ (ty ← types; Sprintf3 lv ty <$> times)
              ++ replicate r ""%string).
Proof. intros H. apply fill_types. lia. Qed.

Lemma length_block (lv : string) (types times : list string) :
  length (ty ← types; Sprintf3 lv ty <$> times)
  = (length types * length times)%nat.
Proof.
  induction types as [|t ts IH]; [done|].
  rewrite bind_cons, length_app, length_fmap, IH. simpl. lia.
Qed.

Lemma fill_levels (levels types times : list string) (i0 r : nat)
  (pre : list string) :
  length pre = (i0 * length types * length times)%nat ->
  forRangeFrom i0 levels
    (fun i lv =>
       forRange types (fun j ty =>
         forRange times (fun k tm =>
           assign (i * length types * length times + j * length times + k)%nat
                  (Sprintf3 lv ty tm))))
    (Some (pre ++ replicate
                    (length levels * length types * length times + r)%nat
                    ""%string))
  = Some (pre ++ combinations levels types times ++ replicate r ""%string).
Proof.
  revert i0 pre. induction levels as [|lv levels IH]; intros i0 pre Hpre; [done|].
  simpl.
  replace ((length types + length levels * length types) * length times + r)%nat
    with (length types * length times
          + (length levels * length types * length times + r))%nat by lia.
  rewrite fill_types_all by lia. rewrite app_assoc, (IH (S i0)).
  - unfold combinations. by rewrite <- !app_assoc.
  - rewrite length_app, Hpre, length_block. lia.
Qed.

Lemma length_combinations (levels types times : list string) :
  length (combinations levels types times)
  = (length levels * length types * length times)%nat.
Proof.
  unfold combinations. induction levels as [|lv levels IH]; [done|].
  rewrite bind_cons, length_app, IH, length_block. simpl. lia.
Qed.


Lemma append_assoc (a b c : string) :
  ((a ++ b) ++ c = a ++ (b ++ c))%string.
Proof.
  induction a as [|h a IH]; [done|].
  change (String h ((a ++ b) ++ c) = String h (a ++ (b ++ c)))%string.
  by rewrite IH.
Qed.

Lemma spaceFree_app_space (a b : string) :
  spaceFree (a ++ String " " b)%string = false.
Proof.
  induction a as [|h a IH]; [done|].
  change (negb (Ascii.eqb h " ") && spaceFree (a ++ String " " b)%string = false).
  rewrite IH. apply andb_false_r.
Qed.

(** A string is cut at its last space in one way only. *)
Lemma cut_at_last_space (x x' c c' : string) :
  spaceFree c = true -> spaceFree c' = true ->
  (x ++ String " " c = x' ++ String " " c')%string ->
  x = x' /\ c = c'.
Proof.
  intros Hc Hc'. revert x'. induction x as [|h x IH]; intros [|h' x'] E.
  - by injection E as ->.
  - change (String " " c = String h' (x' ++ String " " c')%string) in E.
    injection E as _ ->. by rewrite spaceFree_app_space in Hc.
  - change (String h (x ++ String " " c)%string = String " " c') in E.
    injection E as _ <-. by rewrite spaceFree_app_space in Hc'.
  - change (String h (x ++ String " " c)%string
            = String h' (x' ++ String " " c')%string) in E.
    injection E as -> E. by destruct (IH _ E) as [-> ->].
Qed.

Lemma Sprintf3_inj (a b c a' b' c' : string) :
  spaceFree b = true -> spaceFree c = true ->
  spaceFree b' = true -> spaceFree c' = true ->
  Sprintf3 a b c = Sprintf3 a' b' c' ->
  a = a' /\ b = b' /\ c = c'.
Proof.
  intros Hb Hc Hb' Hc' E.
  assert (forall x y z, Sprintf3 x y z
                        = ((x ++ String " " y) ++ String " " z)%string) as Hs.
  { intros x y z. by rewrite append_assoc. }
  rewrite !Hs in E. apply cut_at_last_space in E as [E ->]; [|done..].
  by apply cut_at_last_space in E as [-> ->].
Qed.

Lemma NoDup_combinations (levels types times : list string) :
  NoDup levels -> NoDup types -> NoDup times ->
  Forall (fun s => spaceFree s = true) types ->
  Forall (fun s => spaceFree s = true) times ->
  NoDup (combinations levels types times).
Proof.
  intros Hl Ht Hm Hft Hfm. rewrite Forall_forall in Hft, Hfm.
  assert (forall lv ty tm lv' ty' tm',
            ty ∈ types -> tm ∈ times -> ty' ∈ types -> tm' ∈ times ->
            Sprintf3 lv ty tm = Sprintf3 lv' ty' tm' ->
            lv = lv' /\ ty = ty' /\ tm = tm') as Hinj.
  { intros. apply Sprintf3_inj; auto. }
  unfold combinations. apply NoDup_bind; [| |done].
  - intros lv lv' y _ _ (ty & (tm & -> & Htm)%list_elem_of_fmap & Hty)%list_elem_of_bind
      (ty' & (tm' & E & Htm')%list_elem_of_fmap & Hty')%list_elem_of_bind.
    by destruct (Hinj _ _ _ _ _ _ Hty Htm Hty' Htm' E) as (-> & _).
  - intros lv _. apply NoDup_bind; [| |done].
    + intros ty ty' y Hty Hty' (tm & -> & Htm)%list_elem_of_fmap
        (tm' & E & Htm')%list_elem_of_fmap.
      by destruct (Hinj _ _ _ _ _ _ Hty Htm Hty' Htm' E) as (_ & -> & _).
    + intros ty Hty. apply NoDup_fmap_2_strong; [|done].
      intros tm tm' Htm Htm' E.
      by destruct (Hinj _ _ _ _ _ _ Hty Htm Hty Htm' E) as (_ & _ & ->).
Qed.

Lemma makeClasses_combinations (levels types times : list string) :
  makeClasses levels types times = Some (combinations levels types times).
Proof.
  unfold makeClasses, forRange at 1.
  pose proof (fill_levels levels types times 0 0 [] eq_refl) as H.
  rewrite Nat.add_0_r in H. simpl in H. rewrite H. by rewrite app_nil_r.
Qed.

(** X13. Where no level, no type and no time is repeated and the types
and the times hold no space, the class names that [main]'s loops make are
pairwise distinct (a level may hold spaces, as "for dummies" does). *)
Theorem class_names_distinct (levels types times classes : list string) :
  NoDup levels -> NoDup types -> NoDup times ->
  Forall (fun s => spaceFree s = true) types ->
  Forall (fun s => spaceFree s = true) times ->
  makeClasses levels types times = Some classes ->
  NoDup classes.
Proof.
  intros Hl Ht Hm Hft Hfm. rewrite makeClasses_combinations.
  intros [= <-]. by apply NoDup_combinations.
Qed.

(** The lists of [main] meet these conditions. *)
Lemma catalog_lists :
  NoDup levels /\ NoDup types /\ NoDup times
  /\ Forall (fun s => spaceFree s = true) types
  /\ Forall (fun s => spaceFree s = true) times.
Proof.
  assert (bool_decide (NoDup levels) = true) as H1 by (by vm_compute).
  assert (bool_decide (NoDup types) = true) as H2 by (by vm_compute).
  assert (bool_decide (NoDup times) = true) as H3 by (by vm_compute).
  apply bool_decide_eq_true_1 in H1, H2, H3.
  split; [done|]. split; [done|]. split; [done|].
  split; repeat constructor.
Defined.

Lemma class_names_distinct_witness :
  NoDup levels /\ NoDup types /\ NoDup times
  /\ Forall (fun s => spaceFree s = true) types
  /\ Forall (fun s => spaceFree s = true) times
  /\ makeClasses levels types times = Some (combinations levels types times)
  /\ NoDup (combinations levels types times).
Proof.
  destruct catalog_lists as (H1 & H2 & H3 & H4 & H5).
  pose proof (makeClasses_combinations levels types times) as H6.
  split; [exact H1|]. split; [exact H2|]. split; [exact H3|].
  split; [exact H4|]. split; [exact H5|]. split; [exact H6|].
  exact (class_names_distinct levels types times _ H1 H2 H3 H4 H5 H6).
Defined.



End CatalogFacts.

(* ================================================================== *)
(** * hello_world                                                      *)
(* ================================================================== *)

Section HelloFacts.
Import fdb hello.

(** The program's end, by the fates of its two transactions. *)
Lemma main_by_fate (setDb getDb : Database) (st : Store) :
  main setDb getDb st
  = match fate (OnDatabase setDb) with
    | Committed =>
        match fate (OnDatabase getDb) with
        | Committed =>
            (Printed ("hello, world" ++ newline)%string,
             <[helloKey := worldValue]> st)
        | Failed code =>
            (Fatal "Unable to read FDB database value (%v)" (FdbError code),
             <[helloKey := worldValue]> st)
        | Unsettled => (Running, <[helloKey := worldValue]> st)
        end
    | Failed code =>
        (Fatal "Unable to set FDB database value (%v)" (FdbError code), st)
    | Unsettled => (Running, st)
    end.
Proof.
  unfold main, Set_.
  pose proof (Transact_returns (OnDatabase setDb)
    (fun tr => Returns anyNil None (<[helloKey := worldValue]> tr)) st
    (<[helloKey := worldValue]> st) anyNil eq_refl) as H1.
  destruct (fate (OnDatabase setDb)) as [|code|].
  - rewrite H1.
    pose proof (Transact_returns (OnDatabase getDb)
      (fun tr => Returns (anyBytes (MustGet (Get helloKey tr))) None tr)
      (<[helloKey := worldValue]> st) (<[helloKey := worldValue]> st)
      _ eq_refl) as H2.
    destruct (fate (OnDatabase getDb)) as [|code|].
    + rewrite H2. unfold Get. by rewrite lookup_insert_eq.
    + by destruct H2 as [r ->].
    + by rewrite H2.
  - by destruct H1 as [r ->].
  - by rewrite H1.
Qed.

(** X2. Whatever the store holds, once both transactions of hello_world
commit the program prints [hello, world] and a newline: the read gives
back what the write has put, also over an older value of the key; and
the store differs from the one before in that key only. *)
Theorem hello_prints_what_it_wrote (setDb getDb : Database) (st : Store) :
  fate (OnDatabase setDb) = Committed ->
  fate (OnDatabase getDb) = Committed ->
  exists st',
    main setDb getDb st = (Printed ("hello, world" ++ newline)%string, st')
    /\ st' !! helloKey = Some worldValue
    /\ forall k, k <> helloKey -> st' !! k = st !! k.
Proof.
  intros H1 H2. rewrite main_by_fate, H1, H2. eexists. split; [done|].
  split; [apply lookup_insert_eq|]. intros k Hk. by apply lookup_insert_ne.
Qed.

Lemma hello_prints_what_it_wrote_witness :
  fate (OnDatabase scenario.contended) = Committed
  /\ fate (OnDatabase scenario.steady) = Committed
  /\ exists st',
      main scenario.contended scenario.steady
        {[ helloKey := list_byte_of_string "there" ]}
      = (Printed ("hello, world" ++ newline)%string, st').
Proof.
  split; [reflexivity|]. split; [reflexivity|].
  destruct (hello_prints_what_it_wrote scenario.contended scenario.steady
              {[ helloKey := list_byte_of_string "there" ]} eq_refl eq_refl)
    as (st' & H & _).
  by exists st'.
Defined.

(** X3. hello_world never panics at its type assertion, and its fatal
exits are the store's errors: a failed write ends the program with the
"set" message, the store untouched and no read attempted; a failed read
ends it with the "read" message, the written value staying in the
store. *)
Theorem hello_fatal_exits (setDb getDb : Database) (st : Store) :
  (forall code,
     fate (OnDatabase setDb) = Failed code ->
     main setDb getDb st
     = (Fatal "Unable to set FDB database value (%v)" (FdbError code), st))
  /\ (forall code,
       fate (OnDatabase setDb) = Committed ->
       fate (OnDatabase getDb) = Failed code ->
       main setDb getDb st
       = (Fatal "Unable to read FDB database value (%v)" (FdbError code),
          <[helloKey := worldValue]> st))
  /\ (main setDb getDb st).1 <> Panicked.
Proof.
  rewrite main_by_fate. split; [|split].
  - by intros code ->.
  - by intros code -> ->.
  - by destruct (fate (OnDatabase setDb)), (fate (OnDatabase getDb)).
Qed.

Lemma hello_fatal_exits_witness :
  fate (OnDatabase {| createTransactionError := Some 1031; attempts := [] |})
  = Failed 1031
  /\ main {| createTransactionError := Some 1031; attempts := [] |}
          scenario.steady ∅
     = (Fatal "Unable to set FDB database value (%v)" (FdbError 1031), ∅).
Proof.
  split; [reflexivity|].
  by apply (hello_fatal_exits
              {| createTransactionError := Some 1031; attempts := [] |}
              scenario.steady ∅).
Defined.

End HelloFacts.

(* ================================================================== *)
(** * More on the operations of the scheduler                          *)
(* ================================================================== *)

Section SchedulerLaws.
Import subspace fdb scheduler.

Variable schedulingDir : Subspace.

Abbreviation courseSS := (courseSS schedulingDir).
Abbreviation classKey := (classKey schedulingDir).
Abbreviation attendKey := (attendKey schedulingDir).
Abbreviation signup := (signup schedulingDir).
Abbreviation drop := (drop schedulingDir).
Abbreviation initialize := (initialize schedulingDir).
Abbreviation initializeBody := (initializeBody schedulingDir).
Abbreviation run := (run schedulingDir).
Abbreviation applyOp := (applyOp schedulingDir).
Abbreviation availableClasses := (availableClasses schedulingDir).

Lemma applyOp_outcome (op : Op) (st : Store) :
  applyOp op st
  = outcome (opTransactor op) st
      match op with
      | OpSignup _ s c => <[attendKey s c := []]> st
      | OpDrop _ s c => delete (attendKey s c) st
      end.
Proof. destruct op; [apply signup_outcome | apply drop_outcome]. Qed.

Lemma opKey_ne (op : Op) (s c : string) :
  opPair op <> (s, c) -> attendKey (opPair op).1 (opPair op).2 <> attendKey s c.
Proof.
  intros Hne E. apply attendKey_inj in E as [E1 E2]. apply Hne.
  destruct (opPair op). simpl in *. congruence.
Qed.

(** X4. A sequence of [signup] and [drop] calls, none of them about the
pair [(s, c)], leaves the attendance record of [(s, c)] as it was: the
keys of different pairs never coincide, whatever bytes the names hold. *)
Theorem other_pairs_untouched (ops : list Op) (st st' : Store) (s c : string) :
  run ops st = Some st' ->
  Forall (fun op => opPair op <> (s, c)) ops ->
  st' !! attendKey s c = st !! attendKey s c.
Proof.
  intros Hrun Hall. revert st Hrun.
  induction Hall as [|op ops Hop _ IH]; intros st Hrun.
  - by injection Hrun as ->.
  - simpl in Hrun. fold (applyOp op st) in Hrun. rewrite applyOp_outcome in Hrun.
    apply opKey_ne in Hop. unfold outcome in Hrun.
    destruct (fate (opTransactor op)); [|by apply IH|done].
    rewrite (IH _ Hrun). destruct op as [t s1 c1|t s1 c1]; simpl in Hop.
    + by apply lookup_insert_ne.
    + by apply lookup_delete_ne.
Qed.

Lemma run_two (op1 op2 : Op) (st : Store) :
  run [op1; op2] st
  = match applyOp op1 st with
    | Returns _ _ st1 =>
        match applyOp op2 st1 with
        | Returns _ _ st2 => Some st2
        | _ => None
        end
    | _ => None
    end.
Proof. reflexivity. Qed.

Lemma run_one (op : Op) (st : Store) :
  run [op] st
  = match applyOp op st with Returns _ _ st1 => Some st1 | _ => None end.
Proof. reflexivity. Qed.

(** X5. On one pair the last call decides: where a first call settles and
a second call about the same pair commits, the store is what the second
call alone would have made of the original one. So [drop] after [drop]
is [drop], [drop] after [signup] is [drop], and [signup] after [drop] is
[signup]. *)
Theorem last_call_decides (op1 op2 : Op) (st : Store) :
  opPair op1 = opPair op2 ->
  fate (opTransactor op1) <> Unsettled ->
  fate (opTransactor op2) = Committed ->
  run [op1; op2] st = run [op2] st.
Proof.
  intros Hpair H1 H2. rewrite run_two, run_one, !applyOp_outcome.
  unfold outcome. destruct (fate (opTransactor op1)); [| |done].
  - rewrite applyOp_outcome. unfold outcome. rewrite H2. f_equal.
    destruct op1 as [t1 s1 c1|t1 s1 c1], op2 as [t2 s2 c2|t2 s2 c2];
      simpl in Hpair; injection Hpair as -> ->.
    + apply insert_insert_eq.
    + apply delete_insert_eq.
    + apply insert_delete_eq.
    + apply delete_delete_eq.
  - by rewrite applyOp_outcome.
Qed.

(** X6. Calls about different pairs commute: in either order the two
calls end in the same store (or, where the store settles one of them
not, in none). *)
Theorem calls_on_different_pairs_commute (op1 op2 : Op) (st : Store) :
  opPair op1 <> opPair op2 ->
  run [op1; op2] st = run [op2; op1] st.
Proof.
  intros Hpair. rewrite !run_two, !applyOp_outcome. unfold outcome.
  assert (attendKey (opPair op1).1 (opPair op1).2
          <> attendKey (opPair op2).1 (opPair op2).2) as Hk.
  { apply opKey_ne. by destruct (opPair op2). }
  destruct (fate (opTransactor op1)) eqn:F1, (fate (opTransactor op2)) eqn:F2;
    rewrite ?applyOp_outcome; unfold outcome; rewrite ?F1, ?F2; try done.
  f_equal.
  destruct op1 as [t1 s1 c1|t1 s1 c1], op2 as [t2 s2 c2|t2 s2 c2];
    simpl in Hk.
  - by apply insert_insert_ne.
  - by apply delete_insert_ne.
  - symmetry. by apply delete_insert_ne.
  - apply delete_delete.
Qed.

Lemma classKey_inRange_dir (c : string) :
  inRange (FDBRangeKeys schedulingDir) (classKey c) = true.
Proof. eapply inRange_Sub, classKey_inRange. Qed.

Lemma initializeBody_ext (classes : list string) (st st' : Store) :
  (forall k, inRange (FDBRangeKeys schedulingDir) k = false ->
             st !! k = st' !! k) ->
  initializeBody classes st = initializeBody classes st'.
Proof.
  intros H. apply map_eq. intros k. rewrite !lookup_initializeBody.
  case_bool_decide; [done|].
  destruct (inRange (FDBRangeKeys schedulingDir) k) eqn:E; [done|]. by apply H.
Qed.

(** X7. The initialisation is a full reset. After an earlier
initialisation over any class list and any calls of [signup] and [drop],
a new initialisation ends as it would have on the original store: the
classes of the earlier list that the new one leaves out are gone, and so
is every attendance record. *)
Theorem initialize_forgets (db : Database) (classes0 classes : list string)
  (ops : list Op) (st0 st : Store) :
  run ops (initializeBody classes0 st0) = Some st ->
  initialize db classes st
  = outcome (OnDatabase db) st (initializeBody classes st0)
  /\ (forall c, c ∉ classes -> initializeBody classes st0 !! classKey c = None)
  /\ (forall s c, initializeBody classes st0 !! attendKey s c = None).
Proof.
  intros Hrun. split; [|split].
  - rewrite initialize_outcome. f_equal. apply initializeBody_ext.
    intros k Hk. erewrite run_other; [|done|].
    + rewrite lookup_initializeBody, Hk. case_bool_decide as Hin; [|done].
      apply list_elem_of_fmap in Hin as (c & -> & _).
      by rewrite classKey_inRange_dir in Hk.
    + intros s c ->. by rewrite attendKey_inRange_dir in Hk.
  - intros c Hc. rewrite lookup_initializeBody, classKey_inRange_dir.
    rewrite bool_decide_eq_false_2; [done|].
    intros (c' & E & Hc')%list_elem_of_fmap.
    by apply classKey_inj in E as ->.
  - intros s c. rewrite lookup_initializeBody, attendKey_inRange_dir.
    rewrite bool_decide_eq_false_2; [done|].
    intros (c' & E & _)%list_elem_of_fmap. by apply attendKey_ne_classKey in E.
Qed.

(** ** availableClasses on any store *)






(** The listing of a store whose keys in the class range are class keys. *)
Lemma listing (t : Transactor) (st : Store) :
  (forall k, inRange (FDBRangeKeys courseSS) k = true -> is_Some (st !! k) ->
             exists c, k = classKey c) ->
  exists names,
    availableClasses t st
    = match fate t with
      | Committed => Returns names None st
      | Failed code => Returns [] (Some (FdbError code)) st
      | Unsettled => Pending
      end
    /\ StronglySorted string_lt names
    /\ NoDup names
    /\ forall c, c ∈ names <-> is_Some (st !! classKey c).
Proof.
  intros Hwf. set (kvs := GetRange (FDBRangeKeys courseSS) st).
  assert (Forall (fun kv => exists c, kv.1 = classKey c) kvs) as Hall.
  { apply Forall_forall. intros [k v] [Hk Hr]%elem_of_GetRange.
    apply Hwf; [done|by eexists]. }
  destruct (collect_class_keys schedulingDir kvs [] Hall) as (names & Hkeys & Hcol).
  simpl in Hcol. exists names. split; [|split; [|split]].
  - unfold scheduler.availableClasses, ReadTransact.
    pose proof (Transact_returns t
      (fun view => match collect schedulingDir
                           (GetRange (FDBRangeKeys courseSS) view) [] with
                   | ReadReturns ret err => Returns ret err view
                   | ReadPanics => Panics
                   end) st st names) as HT.
    simpl in HT. fold kvs in HT. rewrite Hcol in HT. specialize (HT eq_refl).
    destruct (fate t); [by rewrite HT | by destruct HT as [r ->] | by rewrite HT].
  - eapply names_sorted; [apply GetRange_sorted|apply GetRange_NoDup|done].
  - eapply NoDup_fmap_1. rewrite <- Hkeys. apply GetRange_NoDup.
  - intros c. transitivity (classKey c ∈ kvs.*1).
    + rewrite Hkeys. split.
      * intros Hc. apply list_elem_of_fmap. by exists c.
      * intros (c' & E & Hc')%list_elem_of_fmap.
        by apply classKey_inj in E as ->.
    + split.
      * intros ([k v] & E & [Hk Hr]%elem_of_GetRange)%list_elem_of_fmap.
        simpl in E. subst k. by eexists.
      * intros [v Hv]. apply list_elem_of_fmap. exists (classKey c, v).
        split; [done|]. apply elem_of_GetRange.
        split; [done|apply classKey_inRange].
Qed.

(** X9. Wherever the keys of the class range are class keys,
[availableClasses] lists exactly the classes that have a record, each
once, in ascending order, and does not look at the values: a class whose
record holds 0 seats, or no number at all, is listed like any other. *)
Theorem availableClasses_lists_every_record (t : Transactor) (st : Store) :
  (forall k, inRange (FDBRangeKeys courseSS) k = true -> is_Some (st !! k) ->
             exists c, k = classKey c) ->
  fate t = Committed ->
  exists names,
    availableClasses t st = Returns names None st
    /\ StronglySorted string_lt names
    /\ NoDup names
    /\ forall c, c ∈ names <-> is_Some (st !! classKey c).
Proof.
  intros Hwf Ht. destruct (listing t st Hwf) as (names & H & ?).
  rewrite Ht in H. by exists names.
Qed.

(** X10. On a store with no key in the class range, so before any
initialisation or after one over the empty class list, [availableClasses]
returns the empty list and no error. *)
Theorem availableClasses_empty (t : Transactor) (st : Store) :
  (forall k, inRange (FDBRangeKeys courseSS) k = true -> st !! k = None) ->
  fate t = Committed ->
  availableClasses t st = Returns [] None st.
Proof.
  intros Hnone Ht. destruct (listing t st) as (names & H & _ & _ & Hin).
  { intros k Hk [v Hv]. rewrite (Hnone k Hk) in Hv. discriminate Hv. }
  rewrite Ht in H. destruct names as [|c names]; [done|].
  assert (is_Some (st !! classKey c)) as [v Hv] by (apply Hin; left).
  rewrite (Hnone _ (classKey_inRange _ c)) in Hv. discriminate Hv.
Qed.

(** X11. The initialisation of [main]: the class list that its loops make
has 1620 names, no two alike, so once the transaction commits the store
holds 1620 class records of 100 seats each, and [availableClasses]
returns those 1620 names. *)
Theorem main_initialises_1620_classes :
  exists classes,
    catalog.makeClasses catalog.levels catalog.types catalog.times = Some classes
    /\ length classes = 1620%nat
    /\ NoDup classes
    /\ forall db t st,
         fate (OnDatabase db) = Committed ->
         fate t = Committed ->
         exists st1 names,
           initialize db classes st = Returns () None st1
           /\ (forall c, c ∈ classes -> st1 !! classKey c = Some (seats 100))
           /\ availableClasses t st1 = Returns names None st1
           /\ names ≡ₚ classes
           /\ length names = 1620%nat.
Proof.
  exists (catalog.combinations catalog.levels catalog.types catalog.times).
  assert (NoDup (catalog.combinations catalog.levels catalog.types
                   catalog.times)) as Hnd.
  { destruct catalog_lists as (H1 & H2 & H3 & H4 & H5).
    by apply NoDup_combinations. }
  assert (length (catalog.combinations catalog.levels catalog.types catalog.times)
          = 1620%nat) as Hlen by (by rewrite length_combinations).
  split; [apply makeClasses_combinations|split; [done|split; [done|]]].
  intros db t st Hdb Ht.
  set (classes := catalog.combinations catalog.levels catalog.types catalog.times)
    in *.
  assert (forall k, initializeBody classes st !! k <> None ->
            inRange (FDBRangeKeys courseSS) k = true ->
            exists c, c ∈ classes /\ k = classKey c) as Hwf.
  { intros k Hk Hr. rewrite lookup_initializeBody in Hk.
    case_bool_decide as Hin.
    - apply list_elem_of_fmap in Hin as (c & -> & Hc). by exists c.
    - by rewrite (inRange_Sub _ _ _ Hr) in Hk. }
  destruct (listing t (initializeBody classes st)) as (names & H & _ & Hn & Hin).
  { intros k Hr [v Hv]. destruct (Hwf k) as (c & _ & ->); [congruence|done|].
    by exists c. }
  rewrite Ht in H.
  assert (names ≡ₚ classes) as Hperm.
  { apply NoDup_Permutation; [done..|]. intros c. rewrite Hin. split.
    - intros [v Hv]. destruct (Hwf (classKey c)) as (c' & Hc' & E);
        [congruence|apply classKey_inRange|].
      by apply classKey_inj in E as ->.
    - intros Hc. rewrite lookup_initializeBody, bool_decide_eq_true_2;
        [by eexists|]. apply list_elem_of_fmap. by exists c. }
  exists (initializeBody classes st), names. split; [|split; [|split; [done|split]]].
  - rewrite initialize_outcome. unfold outcome. by rewrite Hdb.
  - intros c Hc. rewrite lookup_initializeBody, bool_decide_eq_true_2; [done|].
    apply list_elem_of_fmap. by exists c.
  - done.
  - by rewrite Hperm.
Qed.

(** X12. The initialisation goes by the members of the class list: two
lists with the same members, in whatever order and however often
repeated, leave the same store. *)
Theorem initialize_by_members (db : Database) (classes1 classes2 : list string)
  (st : Store) :
  (forall c, c ∈ classes1 <-> c ∈ classes2) ->
  initializeBody classes1 st = initializeBody classes2 st
  /\ initialize db classes1 st = initialize db classes2 st.
Proof.
  intros H.
  assert (initializeBody classes1 st = initializeBody classes2 st) as E.
  { apply map_eq. intros k. rewrite !lookup_initializeBody.
    apply (f_equal (fun b : bool => if b then _ else _)).
    apply bool_decide_ext. rewrite !list_elem_of_fmap.
    split; intros (c & -> & Hc); exists c; (split; [done|by apply H]). }
  split; [done|]. by rewrite !initialize_outcome, E.
Qed.

End SchedulerLaws.

(* ================================================================== *)
(** * The laws on concrete stores                                      *)
(* ================================================================== *)

Section LawScenarios.
Import subspace fdb scheduler scenario.

Abbreviation classKey := (classKey dir).
Abbreviation attendKey := (attendKey dir).
Abbreviation run := (run dir).
Abbreviation availableClasses := (availableClasses dir).

Lemma other_pairs_untouched_witness :
  run [OpSignup OnTransaction "s2" "a"; OpDrop (OnDatabase contended) "s1" "b"]
      orphan
  = Some (delete (attendKey "s1" "b") (<[attendKey "s2" "a" := []]> orphan))
  /\ Forall (fun op => opPair op <> ("s1", "a"))
       [OpSignup OnTransaction "s2" "a"; OpDrop (OnDatabase contended) "s1" "b"]
  /\ delete (attendKey "s1" "b") (<[attendKey "s2" "a" := []]> orphan)
       !! attendKey "s1" "a"
     = orphan !! attendKey "s1" "a".
Proof.
  assert (Forall (fun op => opPair op <> ("s1", "a"))
            [OpSignup OnTransaction "s2" "a";
             OpDrop (OnDatabase contended) "s1" "b"]) as Hall
    by (repeat constructor; discriminate).
  split; [reflexivity|]. split; [exact Hall|].
  by apply (other_pairs_untouched dir
              [OpSignup OnTransaction "s2" "a";
               OpDrop (OnDatabase contended) "s1" "b"]).
Defined.

Lemma last_call_decides_witness :
  opPair (OpSignup (OnDatabase contended) "s1" "a")
  = opPair (OpDrop OnTransaction "s1" "a")
  /\ fate (OnDatabase contended) <> Unsettled
  /\ fate OnTransaction = Committed
  /\ run [OpSignup (OnDatabase contended) "s1" "a"; OpDrop OnTransaction "s1" "a"]
         enrolled
     = run [OpDrop OnTransaction "s1" "a"] enrolled.
Proof.
  split; [reflexivity|]. split; [by vm_compute|]. split; [reflexivity|].
  apply (last_call_decides dir); [reflexivity|by vm_compute|reflexivity].
Defined.

Lemma calls_on_different_pairs_commute_witness :
  opPair (OpSignup (OnDatabase steady) "s2" "a")
  <> opPair (OpDrop OnTransaction "s1" "a")
  /\ run [OpSignup (OnDatabase steady) "s2" "a"; OpDrop OnTransaction "s1" "a"]
         enrolled
     = run [OpDrop OnTransaction "s1" "a"; OpSignup (OnDatabase steady) "s2" "a"]
         enrolled.
Proof.
  split; [discriminate|].
  apply (calls_on_different_pairs_commute dir). discriminate.
Defined.

Lemma initialize_forgets_witness :
  run [OpSignup OnTransaction "s2" "a"] (initializeBody dir ["a"; "b"] enrolled)
  = Some (<[attendKey "s2" "a" := []]> (initializeBody dir ["a"; "b"] enrolled))
  /\ initialize dir steady ["b"; "c"]
       (<[attendKey "s2" "a" := []]> (initializeBody dir ["a"; "b"] enrolled))
     = outcome (OnDatabase steady)
         (<[attendKey "s2" "a" := []]> (initializeBody dir ["a"; "b"] enrolled))
         (initializeBody dir ["b"; "c"] enrolled).
Proof.
  split; [reflexivity|].
  by apply (initialize_forgets dir steady ["a"; "b"] ["b"; "c"]
              [OpSignup OnTransaction "s2" "a"] enrolled).
Defined.


Lemma full_class_region :
  forall k, inRange (FDBRangeKeys (courseSS dir)) k = true ->
            is_Some (full !! k) -> exists c, k = classKey c.
Proof.
  intros k _ [v Hv]. unfold full in Hv.
  apply lookup_singleton_Some in Hv as [<- _]. by exists "a".
Defined.

Lemma availableClasses_lists_every_record_witness :
  fate (OnDatabase contended) = Committed
  /\ full !! classKey "a" = Some (seats 0)
  /\ exists names,
      availableClasses (OnDatabase contended) full = Returns names None full
      /\ ("a" ∈ names <-> is_Some (full !! classKey "a")).
Proof.
  split; [reflexivity|]. split; [by vm_compute|].
  destruct (availableClasses_lists_every_record dir (OnDatabase contended) full
              full_class_region eq_refl) as (names & H & _ & _ & Hin).
  exists names. split; [exact H | apply Hin].
Defined.

(** The listing of the store whose only class has no seat left, computed. *)
Example availableClasses_full_computed :
  match availableClasses OnTransaction full with
  | Returns names None _ => names
  | _ => []
  end = ["a"].
Proof. by vm_compute. Qed.

Lemma availableClasses_empty_witness :
  fate OnTransaction = Committed
  /\ availableClasses OnTransaction orphan = Returns [] None orphan.
Proof.
  split; [reflexivity|].
  apply (availableClasses_empty dir OnTransaction orphan); [|reflexivity].
  intros k Hk. unfold orphan. apply lookup_singleton_None. intros <-.
  by rewrite attendKey_not_class in Hk.
Defined.

Lemma initialize_by_members_witness :
  (forall c, c ∈ ["b"; "a"; "b"] <-> c ∈ ["a"; "b"])
  /\ initialize dir steady ["b"; "a"; "b"] enrolled
     = initialize dir steady ["a"; "b"] enrolled.
Proof.
  assert (forall c : string, c ∈ ["b"; "a"; "b"] <-> c ∈ ["a"; "b"]) as H.
  { intros c. rewrite !elem_of_cons, elem_of_nil. tauto. }
  split; [exact H|].
  by apply (initialize_by_members dir steady ["b"; "a"; "b"] ["a"; "b"] enrolled).
Defined.

Lemma main_initialises_1620_classes_witness :
  fate (OnDatabase steady) = Committed
  /\ fate OnTransaction = Committed
  /\ exists classes st1 names,
      initialize dir steady classes orphan = Returns () None st1
      /\ availableClasses OnTransaction st1 = Returns names None st1
      /\ length names = 1620%nat.
Proof.
  split; [reflexivity|]. split; [reflexivity|].
  destruct (main_initialises_1620_classes dir) as (classes & _ & _ & _ & H).
  destruct (H steady OnTransaction orphan eq_refl eq_refl)
    as (st1 & names & H1 & _ & H3 & _ & H5).
  by exists classes, st1, names.
Defined.

End LawScenarios.
